(** * SkeletonTool: pose resolution and debug-geometry emission

    A shallow embedding of the skeleton visualisation tool
    (class [SkeletonTool]: [update], [drawSkeleton], [drawWireSphere],
    [drawAxis]) together with the properties its specification states.

    Conventions of the embedding.
    - A JavaScript [number] is an IEEE 754 binary64 value: Rocq's primitive
      [float], whose operations are the ones the engine executes.
    - A 4x4 matrix is the flat column-major array the code indexes
      ([m.[12]], [m.[13]], [m.[14]] is the translation).
    - [Map]s that the code iterates with [forEach] are association lists in
      insertion order; maps that are only queried are [gmap]s.
    - The debug renderer is an append-only sink: every function returns the
      calls it issues, in order.  Each call carries the place of the source
      it was issued from (a ghost label, [Site]), so that properties about
      "bone lines" or "the root marker" can be stated on the emitted
      sequence.
    - The loop over the bones is read twice: on bones of the declared
      shape ([Bone.t], [drawBone]), and on the array as [any[]]
      ([RawBone.t], [drawBoneRaw]), where a parent index is any value, a
      bind pose may be missing and a [TypeError] ends the loop. *)

From Stdlib Require Import ZArith Floats Bool Lia Ascii.
From stdpp Require Import base option list gmap strings.

Set Warnings "-inexact-float".

(** ** Numbers *)

(** JavaScript's ToBoolean on a number: [+0], [-0] and [NaN] are falsy. *)
Definition truthy (v : float) : bool :=
  negb (v =? 0)%float && negb (is_nan v).

(** [v || 1] on numbers. *)
Definition orOne (v : float) : float := if truthy v then v else 1%float.

(** [v ** 2], taken as the correctly rounded product [v * v]. *)
Definition sq (v : float) : float := (v * v)%float.

(** Loop counters are small non-negative integers, exact as doubles. *)
Definition ofNat (n : nat) : float := PrimFloat.of_uint63 (Uint63.of_Z (Z.of_nat n)).

(** [Math.PI]. *)
Definition Math_PI : float := 0x1.921fb54442d18p+1%float.

(** ** Vectors, colours and matrices *)

Module Vec3.
Record t := mk { x : float; y : float; z : float }.
End Vec3.

Module Color.
Record t := mk { r : float; g : float; b : float }.
End Color.

(** Flat 16-element column-major array.  Reading past the end of a
    JavaScript array gives [undefined], which arithmetic turns into NaN. *)
Definition Mat4 := list float.

Definition mat_at (m : Mat4) (k : nat) : float := nth k m nan.
Notation "m .[ k ]" := (mat_at m k) (at level 1, format "m .[ k ]").

(** ** The debug renderer *)

(** Where in [drawSkeleton] a call was issued (ghost information). *)
Inductive Site :=
  | OriginAxis   (* standalone origin triad, scale 0.6 *)
  | RootAxis     (* root bone triad *)
  | RootSphere   (* root wire sphere *)
  | JointPoint   (* joint dot of a non-root bone *)
  | BoneAxis     (* per-bone triad under drawAxes *)
  | BoneLine.    (* bone-to-parent connection *)

Inductive Prim :=
  | drawLine (a b : Vec3.t) (color : Color.t)
  | drawPoint (p : Vec3.t) (color : Color.t) (radius border : float).

Record Call := mkCall { site : Site; prim : Prim }.

Definition DebugRenderer := list Call.

Definition isLine (c : Call) : bool :=
  match prim c with drawLine _ _ _ => true | drawPoint _ _ _ _ => false end.

Definition isPoint (c : Call) : bool := negb (isLine c).

#[global] Instance Site_eq_dec : EqDecision Site.
Proof. solve_decision. Defined.

(** ** Options *)

Record SkeletonToolOptions := mkOptions {
  enabled : bool;
  drawJoints : bool;
  drawBones : bool;
  drawAxes : bool;
  jointRadius : float;
  rootScale : float;
  boneColor : Color.t;
  rootColor : Color.t;
  border : float
}.

Definition DEFAULT_OPTIONS : SkeletonToolOptions := {|
  enabled := true;
  drawJoints := true;
  drawBones := true;
  drawAxes := false;
  jointRadius := 10;
  rootScale := 1.6;
  boneColor := Color.mk 0.5 0.5 0.5;
  rootColor := Color.mk 0.2 1.0 0.2;
  border := 0.2
|}.

(** [Partial<SkeletonToolOptions>]: [None] is a key that is not present. *)
Record PartialOptions := mkPartial {
  p_enabled : option bool;
  p_drawJoints : option bool;
  p_drawBones : option bool;
  p_drawAxes : option bool;
  p_jointRadius : option float;
  p_rootScale : option float;
  p_boneColor : option Color.t;
  p_rootColor : option Color.t;
  p_border : option float
}.

(** The tool object: its only field is [options]. *)
Record SkeletonTool := mkTool { options : SkeletonToolOptions }.

Definition newSkeletonTool : SkeletonTool := {| options := DEFAULT_OPTIONS |}.

Definition setOptions (partial : PartialOptions) (this : SkeletonTool) : SkeletonTool :=
  let o := options this in
  {| options := {|
       enabled := default (enabled o) (p_enabled partial);
       drawJoints := default (drawJoints o) (p_drawJoints partial);
       drawBones := default (drawBones o) (p_drawBones partial);
       drawAxes := default (drawAxes o) (p_drawAxes partial);
       jointRadius := default (jointRadius o) (p_jointRadius partial);
       rootScale := default (rootScale o) (p_rootScale partial);
       boneColor := default (boneColor o) (p_boneColor partial);
       rootColor := default (rootColor o) (p_rootColor partial);
       border := default (border o) (p_border partial)
     |} |}.

Definition getOptions (this : SkeletonTool) : SkeletonToolOptions := options this.

(** [setActive] and [setActiveAsset] are no-ops. *)
Definition setActive (assetId entityId : option string) (this : SkeletonTool) : SkeletonTool := this.
Definition setActiveAsset (assetId : option string) (this : SkeletonTool) : SkeletonTool := this.

(** ** Assets *)

(** [bone.visual.color]: an object read through [c.x ?? c[0]], so either
    the named or the indexed component may be present. *)
Record ColorHint := mkHint {
  c_x : option float; c_y : option float; c_z : option float;
  c_0 : option float; c_1 : option float; c_2 : option float
}.

Module Visual.
Record t := mk { size : option float; color : option ColorHint }.
End Visual.

Module Bone.
(** A bone as the asset types declare it: [parentIndex] is an integer,
    [None] is [undefined] or [null], and [bindPose] is present.  The
    source reads the array as [any[]]; bones outside this shape (a
    parent index that is another kind of number or value, a missing
    [bindPose], an empty slot) are covered by [RawBone] below. *)
Record t := mk {
  parentIndex : option Z;
  bindPose : Mat4;
  visual : option Visual.t
}.
End Bone.

(** [skeleton.bones] is [None] when it is not an array. *)
Record Skeleton := mkSkeleton { bones : option (list Bone.t) }.

Record Asset := mkAsset { skeleton : option Skeleton }.

Record AssetManager := mkAssetManager {
  assets : gmap string Asset;          (* getAsset *)
  meshIntToUuid : gmap Z string
}.

Definition getAsset (am : AssetManager) (assetId : string) : option Asset :=
  assets am !! assetId.

(** ** The engine *)

(** A [Map] in insertion order, keys distinct. *)
Definition JsMap (V : Type) := list (string * V).

Fixpoint JsMap_get {V} (m : JsMap V) (k : string) : option V :=
  match m with
  | [] => None
  | (k', v) :: m' => if bool_decide (k' = k) then Some v else JsMap_get m' k
  end.

Definition JsMap_has {V} (m : JsMap V) (k : string) : bool :=
  bool_decide (k ∈ m.*1).

Definition JsMap_wf {V} (m : JsMap V) : Prop := NoDup m.*1.

Record Store := mkStore {
  isActive : list bool;
  meshType : list Z
}.

Record Ecs := mkEcs {
  idToIndex : gmap string nat;
  store : Store
}.

Record Engine := mkEngine {
  debugRenderer : option DebugRenderer;
  skeletonEntityAssetMap : JsMap string;            (* entityId -> assetId *)
  skeletonMap : JsMap (list (option string));       (* entityId -> bone entity ids *)
  ecs : Ecs;
  sceneGraph : gmap string Mat4                     (* getWorldMatrix *)
}.

Definition getWorldMatrix (e : Engine) (entityId : string) : option Mat4 :=
  sceneGraph e !! entityId.

(** ** drawAxis and drawWireSphere *)

Definition addScaled (origin axis : Vec3.t) (scale : float) : Vec3.t :=
  Vec3.mk (Vec3.x origin + Vec3.x axis * scale)
          (Vec3.y origin + Vec3.y axis * scale)
          (Vec3.z origin + Vec3.z axis * scale).

(** Three segments from [origin], red, green and blue. *)
Definition drawAxis (s : Site) (origin xAxis yAxis zAxis : Vec3.t) (scale : float)
  : list Call :=
  [ mkCall s (drawLine origin (addScaled origin xAxis scale) (Color.mk 1 0 0));
    mkCall s (drawLine origin (addScaled origin yAxis scale) (Color.mk 0 1 0));
    mkCall s (drawLine origin (addScaled origin zAxis scale) (Color.mk 0 0 1)) ].

(** [Math.cos] and [Math.sin]: ECMAScript leaves their values
    implementation-approximated, so the host provides them. *)
Class Math := {
  Math_cos : float -> float;
  Math_sin : float -> float
}.

Section Drawing.
Context {M : Math}.

Definition segments : nat := 12.

(** One [for (i = 1; i <= segments; i++)] loop: [prev] is threaded
    through the iterations, each of which draws [prev -> next]. *)
Fixpoint circleLoop (s : Site) (next : float -> Vec3.t) (color : Color.t)
    (prev : Vec3.t) (i : nat) (count : nat) : list Call :=
  match count with
  | O => []
  | S count' =>
      let theta := (ofNat i / ofNat segments * Math_PI * 2)%float in
      let nxt := next theta in
      mkCall s (drawLine prev nxt color) :: circleLoop s next color nxt (S i) count'
  end.

Definition drawWireSphere (s : Site) (center : Vec3.t) (radius : float)
    (color : Color.t) : list Call :=
  let cx := Vec3.x center in
  let cy := Vec3.y center in
  let cz := Vec3.z center in
  (* XY circle *)
  circleLoop s
    (fun theta => Vec3.mk (cx + Math_cos theta * radius) (cy + Math_sin theta * radius) cz)
    color (Vec3.mk (cx + radius) cy cz) 1 segments
  ++
  (* YZ circle *)
  circleLoop s
    (fun theta => Vec3.mk cx (cy + Math_cos theta * radius) (cz + Math_sin theta * radius))
    color (Vec3.mk cx (cy + radius) cz) 1 segments
  ++
  (* XZ circle *)
  circleLoop s
    (fun theta => Vec3.mk (cx + Math_cos theta * radius) cy (cz + Math_sin theta * radius))
    color (Vec3.mk (cx + radius) cy cz) 1 segments.

(** ** drawSkeleton *)

(** [transform]: the point helper, a full affine map. *)
Definition transform (worldMat : Mat4) (x y z : float) : Vec3.t :=
  Vec3.mk (worldMat.[0] * x + worldMat.[4] * y + worldMat.[8] * z + worldMat.[12])
          (worldMat.[1] * x + worldMat.[5] * y + worldMat.[9] * z + worldMat.[13])
          (worldMat.[2] * x + worldMat.[6] * y + worldMat.[10] * z + worldMat.[14]).

(** [rotate]: the axis helper, which ignores the translation. *)
Definition rotate (worldMat : Mat4) (x y z : float) : Vec3.t :=
  Vec3.mk (worldMat.[0] * x + worldMat.[4] * y + worldMat.[8] * z)
          (worldMat.[1] * x + worldMat.[5] * y + worldMat.[9] * z)
          (worldMat.[2] * x + worldMat.[6] * y + worldMat.[10] * z).

Definition isRoot (p : option Z) : bool :=
  match p with
  | None => true                 (* undefined or null *)
  | Some v => (v =? -1)%Z
  end.

(** [liveBoneIds && liveBoneIds[k]], then [getWorldMatrix] of that id:
    the live world matrix of bone [k], when there is one.  An id is
    usable when it is a non-empty string. *)
Definition liveWorldMatrix (e : Engine) (liveBoneIds : option (list (option string)))
    (k : nat) : option Mat4 :=
  match liveBoneIds with
  | None => None
  | Some ids =>
      match ids !! k with
      | Some (Some liveBoneId) =>
          if bool_decide (liveBoneId = "") then None
          else getWorldMatrix e liveBoneId
      | _ => None
      end
  end.

Record Pose := mkPose { pos : Vec3.t; rx : Vec3.t; ry : Vec3.t; rz : Vec3.t }.

(** [Math.sqrt(a**2 + b**2 + c**2)]. *)
Definition norm3 (a b c : float) : float := sqrt (sq a + sq b + sq c).

(** Length of the rotation column starting at index [k], or 1. *)
Definition columnLength (m : Mat4) (k : nat) : float :=
  orOne (norm3 m.[k] m.[k+1] m.[k+2]).

Definition normalizedColumn (m : Mat4) (k : nat) : Vec3.t :=
  let l := columnLength m k in
  Vec3.mk (m.[k] / l) (m.[k+1] / l) (m.[k+2] / l).

Definition livePose (liveWm : Mat4) : Pose :=
  {| pos := Vec3.mk liveWm.[12] liveWm.[13] liveWm.[14];
     rx := normalizedColumn liveWm 0;
     ry := normalizedColumn liveWm 4;
     rz := normalizedColumn liveWm 8 |}.

Definition bindPosePose (worldMat : Mat4) (bone : Bone.t) : Pose :=
  let bp := Bone.bindPose bone in
  {| pos := transform worldMat bp.[12] bp.[13] bp.[14];
     rx := rotate worldMat bp.[0] bp.[1] bp.[2];
     ry := rotate worldMat bp.[4] bp.[5] bp.[6];
     rz := rotate worldMat bp.[8] bp.[9] bp.[10] |}.

(** Position and axes of bone [i]: live entity first, bind pose as the
    fallback. *)
Definition resolvePose (e : Engine) (worldMat : Mat4)
    (liveBoneIds : option (list (option string))) (i : nat) (bone : Bone.t) : Pose :=
  match liveWorldMatrix e liveBoneIds i with
  | Some liveWm => livePose liveWm
  | None => bindPosePose worldMat bone
  end.

(** [a ?? b ?? c]. *)
Definition coalesce (a b : option float) (c : float) : float :=
  match a with
  | Some v => v
  | None => default c b
  end.

Definition jointColor (bone : Bone.t) : Color.t :=
  let color := Color.mk 1 0.5 0 in
  match Bone.visual bone ≫= Visual.color with
  | Some c =>
      Color.mk (coalesce (c_x c) (c_0 c) (Color.r color))
               (coalesce (c_y c) (c_1 c) (Color.g color))
               (coalesce (c_z c) (c_2 c) (Color.b color))
  | None => color
  end.

Definition jointSize (o : SkeletonToolOptions) (bone : Bone.t) : float :=
  let mult := default 1.0%float (Bone.visual bone ≫= Visual.size) in
  (jointRadius o * mult)%float.

(** Root branch: triad (standalone, or under [drawAxes]) and sphere. *)
Definition drawRoot (o : SkeletonToolOptions) (isStandalone : bool) (ps : Pose)
  : list Call :=
  (if isStandalone || drawAxes o
   then drawAxis RootAxis (pos ps) (rx ps) (ry ps) (rz ps) (0.35 * rootScale o)
   else [])
  ++
  (if drawJoints o
   then drawWireSphere RootSphere (pos ps) (0.3 * rootScale o) (rootColor o)
   else []).

(** Non-root branch: the joint dot. *)
Definition drawJoint (o : SkeletonToolOptions) (bone : Bone.t) (ps : Pose)
  : list Call :=
  if drawJoints o
  then [mkCall JointPoint
          (drawPoint (pos ps) (jointColor bone) (jointSize o bone) (border o))]
  else [].

(** Per-bone triad under [drawAxes]. *)
Definition drawBoneAxes (o : SkeletonToolOptions) (root : bool) (ps : Pose)
  : list Call :=
  if drawAxes o && negb root
  then drawAxis BoneAxis (pos ps) (rx ps) (ry ps) (rz ps) 0.3
  else [].

(** Position of the parent end of the connection line. *)
Definition parentPos (e : Engine) (worldMat : Mat4) (bs : list Bone.t)
    (liveBoneIds : option (list (option string))) (p : nat) : Vec3.t :=
  match liveWorldMatrix e liveBoneIds p with
  | Some pWm => Vec3.mk pWm.[12] pWm.[13] pWm.[14]
  | None =>
      match bs !! p with
      | Some parent =>
          let bp := Bone.bindPose parent in
          transform worldMat bp.[12] bp.[13] bp.[14]
      | None => Vec3.mk 0 0 0
      end
  end.

(** The bone connection line, drawn under
    [drawBones && !isRoot && typeof p === 'number' && p >= 0 && p < bones.length]. *)
Definition drawConnection (o : SkeletonToolOptions) (e : Engine) (worldMat : Mat4)
    (bs : list Bone.t) (liveBoneIds : option (list (option string)))
    (bone : Bone.t) (ps : Pose) : list Call :=
  match Bone.parentIndex bone with
  | Some p =>
      if drawBones o && negb (isRoot (Some p))
         && (0 <=? p)%Z && (p <? Z.of_nat (length bs))%Z
      then [mkCall BoneLine
              (drawLine (parentPos e worldMat bs liveBoneIds (Z.to_nat p))
                        (pos ps) (boneColor o))]
      else []
  | None => []
  end.

(** One iteration of the loop over the bones. *)
Definition drawBone (o : SkeletonToolOptions) (e : Engine) (worldMat : Mat4)
    (isStandalone : bool) (bs : list Bone.t)
    (liveBoneIds : option (list (option string))) (i : nat) (bone : Bone.t)
  : list Call :=
  let root := isRoot (Bone.parentIndex bone) in
  let ps := resolvePose e worldMat liveBoneIds i bone in
  (if root then drawRoot o isStandalone ps else drawJoint o bone ps)
  ++ drawBoneAxes o root ps
  ++ drawConnection o e worldMat bs liveBoneIds bone ps.

(** The origin triad of a standalone instance: the columns of the
    world matrix at its translation, scale 0.6. *)
Definition drawOrigin (worldMat : Mat4) : list Call :=
  let origin := Vec3.mk worldMat.[12] worldMat.[13] worldMat.[14] in
  let ex := Vec3.mk worldMat.[0] worldMat.[1] worldMat.[2] in
  let ey := Vec3.mk worldMat.[4] worldMat.[5] worldMat.[6] in
  let ez := Vec3.mk worldMat.[8] worldMat.[9] worldMat.[10] in
  drawAxis OriginAxis origin ex ey ez 0.6.

Definition drawSkeleton (this : SkeletonTool) (am : AssetManager) (e : Engine)
    (assetId entityId : string) (isStandalone : bool) : list Call :=
  match getAsset am assetId with
  | None => []
  | Some asset =>
      match skeleton asset ≫= bones with
      | None => []
      | Some bs =>
          match getWorldMatrix e entityId with
          | None => []
          | Some worldMat =>
              (if isStandalone then drawOrigin worldMat else [])
              ++
              let liveBoneIds := JsMap_get (skeletonMap e) entityId in
              concat (imap (drawBone (options this) e worldMat isStandalone bs liveBoneIds) bs)
          end
      end
  end.

(** ** update *)

(** The asset a skeletal-mesh entity is drawn with: the entity must be
    registered and active, and its mesh type must name a non-empty
    asset id. *)
Definition meshAssetOf (am : AssetManager) (e : Engine) (entityId : string)
  : option string :=
  match idToIndex (ecs e) !! entityId with
  | None => None
  | Some idx =>
      match isActive (store (ecs e)) !! idx with
      | Some true =>
          match meshType (store (ecs e)) !! idx ≫= (λ meshIntId, meshIntToUuid am !! meshIntId) with
          | Some assetId => if bool_decide (assetId = "") then None else Some assetId
          | None => None
          end
      | _ => None
      end
  end.

Definition drawStandalone (this : SkeletonTool) (am : AssetManager) (e : Engine)
    (entry : string * string) : list Call :=
  let '(entityId, assetId) := entry in
  drawSkeleton this am e assetId entityId true.

Definition drawSkeletalMesh (this : SkeletonTool) (am : AssetManager) (e : Engine)
    (entry : string * list (option string)) : list Call :=
  let '(entityId, _) := entry in
  if JsMap_has (skeletonEntityAssetMap e) entityId then []
  else
    match meshAssetOf am e entityId with
    | Some assetId => drawSkeleton this am e assetId entityId false
    | None => []
    end.

(** The calls one [update] issues to the debug renderer. *)
Definition updateCalls (this : SkeletonTool) (am : AssetManager) (e : Engine)
  : list Call :=
  if negb (enabled (options this)) then []
  else
    match debugRenderer e with
    | None => []
    | Some _ =>
        flat_map (drawStandalone this am e) (skeletonEntityAssetMap e)
        ++ flat_map (drawSkeletalMesh this am e) (skeletonMap e)
    end.

(** [update] as a step of the whole state: the tool and the engine are
    only read, the calls are appended to the renderer. *)
Definition update (this : SkeletonTool) (am : AssetManager) (e : Engine)
  : SkeletonTool * Engine :=
  (this,
   {| debugRenderer := (λ debug, debug ++ updateCalls this am e) <$> debugRenderer e;
      skeletonEntityAssetMap := skeletonEntityAssetMap e;
      skeletonMap := skeletonMap e;
      ecs := ecs e;
      sceneGraph := sceneGraph e |}).
End Drawing.

(** ** The calls of [drawSkeleton] that one [update] makes *)

(** One invocation [drawSkeleton(assetId, entityId, debug, isStandalone)]. *)
Record Invocation := mkInvocation {
  inv_assetId : string;
  inv_entityId : string;
  inv_isStandalone : bool
}.

Definition standaloneInvocations (e : Engine) : list Invocation :=
  (λ entry, mkInvocation entry.2 entry.1 true) <$> skeletonEntityAssetMap e.

Definition meshInvocations (am : AssetManager) (e : Engine) : list Invocation :=
  flat_map (λ entry : string * list (option string),
              if JsMap_has (skeletonEntityAssetMap e) entry.1 then []
              else match meshAssetOf am e entry.1 with
                   | Some assetId => [mkInvocation assetId entry.1 false]
                   | None => []
                   end)
           (skeletonMap e).

Definition invocations (this : SkeletonTool) (am : AssetManager) (e : Engine)
  : list Invocation :=
  if negb (enabled (options this)) then []
  else match debugRenderer e with
       | None => []
       | Some _ => standaloneInvocations e ++ meshInvocations am e
       end.

(** * The bone array as [any[]]

    [skeleton.bones] is typed [{ bones: any[] }] and [parentIndex] is
    read through [(bone as any)], so the loop of [drawSkeleton] has to
    cope with whatever the array holds.  This second reading of l.133-245
    keeps what the typed one leaves out: [parentIndex] is any JavaScript
    value, [bindPose] may be missing, a slot of the array may be
    [undefined] or [null], and a [TypeError] ends the loop. *)

(** The values [parentIndex] is tested against: [JsOther] is a string, a
    boolean, an object, and so on. *)
Inductive JsValue :=
| JsUndefined
| JsNull
| JsNumber (v : float)
| JsOther.

Module RawBone.
Record t := mk {
  parentIndex : JsValue;
  bindPose : option Mat4;
  visual : option Visual.t
}.
End RawBone.

(** How a run ends: it returns, or a [TypeError] is thrown; either way
    the calls issued so far are in the renderer. *)
Inductive Outcome :=
| Returned (calls : list Call)
| Threw (calls : list Call).

Definition callsOf (out : Outcome) : list Call :=
  match out with Returned calls | Threw calls => calls end.

Definition prefixed (calls : list Call) (out : Outcome) : Outcome :=
  match out with
  | Returned rest => Returned (calls ++ rest)
  | Threw rest => Threw (calls ++ rest)
  end.

(** [p === -1 || p === undefined || p === null]. *)
Definition isRootRaw (p : JsValue) : bool :=
  match p with
  | JsUndefined | JsNull => true
  | JsNumber v => (v =? -1)%float
  | JsOther => false
  end.

(** [arr[p]] for a number [p]: the element at index [k] when [p] is the
    integer [k] (of either sign for zero) and [k < arr.length], and
    [undefined] otherwise, in particular for a fraction, an infinity or
    NaN. *)
Fixpoint jsIndexFrom {A} (arr : list A) (k : nat) (p : float) : option A :=
  match arr with
  | [] => None
  | x :: arr' => if (ofNat k =? p)%float then Some x else jsIndexFrom arr' (S k) p
  end.

Definition jsIndex {A} (arr : list A) (p : float) : option A := jsIndexFrom arr 0 p.

Section RawDrawing.
Context {M : Math}.

(** [liveBoneIds && liveBoneIds[p]], then [getWorldMatrix], l.227-234. *)
Definition liveWorldMatrixAt (e : Engine) (liveBoneIds : option (list (option string)))
    (p : float) : option Mat4 :=
  match liveBoneIds with
  | None => None
  | Some ids =>
      match jsIndex ids p with
      | Some (Some pLiveId) =>
          if bool_decide (pLiveId = "") then None
          else getWorldMatrix e pLiveId
      | _ => None
      end
  end.

(** l.146-186: the live pose, else the bind pose; [None] is the
    [TypeError] of [bone.bindPose[12]] when there is no [bindPose]. *)
Definition resolvePoseRaw (e : Engine) (worldMat : Mat4)
    (liveBoneIds : option (list (option string))) (i : nat) (bone : RawBone.t)
  : option Pose :=
  match liveWorldMatrix e liveBoneIds i with
  | Some liveWm => Some (livePose liveWm)
  | None =>
      match RawBone.bindPose bone with
      | Some bp =>
          Some {| pos := transform worldMat bp.[12] bp.[13] bp.[14];
                  rx := rotate worldMat bp.[0] bp.[1] bp.[2];
                  ry := rotate worldMat bp.[4] bp.[5] bp.[6];
                  rz := rotate worldMat bp.[8] bp.[9] bp.[10] |}
      | None => None
      end
  end.

(** l.203-214. *)
Definition drawJointRaw (o : SkeletonToolOptions) (bone : RawBone.t) (ps : Pose)
  : list Call :=
  if drawJoints o
  then
    let mult := default 1.0%float (RawBone.visual bone ≫= Visual.size) in
    let color := Color.mk 1 0.5 0 in
    let color :=
      match RawBone.visual bone ≫= Visual.color with
      | Some c =>
          Color.mk (coalesce (c_x c) (c_0 c) (Color.r color))
                   (coalesce (c_y c) (c_1 c) (Color.g color))
                   (coalesce (c_z c) (c_2 c) (Color.b color))
      | None => color
      end in
    [mkCall JointPoint (drawPoint (pos ps) color (jointRadius o * mult) (border o))]
  else [].

(** l.224-241: the parent end of the line starts as [{x: 0, y: 0, z: 0}]
    and is replaced by the live position of the parent, or else by its
    transformed bind-pose translation when [parent?.bindPose] is truthy. *)
Definition parentPosRaw (e : Engine) (worldMat : Mat4) (bs : list (option RawBone.t))
    (liveBoneIds : option (list (option string))) (p : float) : Vec3.t :=
  match liveWorldMatrixAt e liveBoneIds p with
  | Some pWm => Vec3.mk pWm.[12] pWm.[13] pWm.[14]
  | None =>
      match jsIndex bs p with
      | Some (Some parent) =>
          match RawBone.bindPose parent with
          | Some bp => transform worldMat bp.[12] bp.[13] bp.[14]
          | None => Vec3.mk 0 0 0
          end
      | _ => Vec3.mk 0 0 0
      end
  end.

(** l.223-244, under
    [drawBones && !isRoot && typeof p === 'number' && p >= 0 && p < bones.length]. *)
Definition drawConnectionRaw (o : SkeletonToolOptions) (e : Engine) (worldMat : Mat4)
    (bs : list (option RawBone.t)) (liveBoneIds : option (list (option string)))
    (bone : RawBone.t) (ps : Pose) : list Call :=
  match RawBone.parentIndex bone with
  | JsNumber p =>
      if drawBones o && negb (isRootRaw (JsNumber p))
         && (0 <=? p)%float && (p <? ofNat (length bs))%float
      then [mkCall BoneLine
              (drawLine (parentPosRaw e worldMat bs liveBoneIds p)
                        (pos ps) (boneColor o))]
      else []
  | _ => []
  end.

(** One iteration, l.134-244.  Reading [parentIndex] of an empty slot
    throws, and so does reading [bindPose[12]] of a bone without bind
    pose and without live matrix; both happen before the iteration
    draws anything. *)
Definition drawBoneRaw (o : SkeletonToolOptions) (e : Engine) (worldMat : Mat4)
    (isStandalone : bool) (bs : list (option RawBone.t))
    (liveBoneIds : option (list (option string))) (i : nat)
    (slot : option RawBone.t) : Outcome :=
  match slot with
  | None => Threw []
  | Some bone =>
      let root := isRootRaw (RawBone.parentIndex bone) in
      match resolvePoseRaw e worldMat liveBoneIds i bone with
      | None => Threw []
      | Some ps =>
          Returned
            ((if root then drawRoot o isStandalone ps else drawJointRaw o bone ps)
             ++ drawBoneAxes o root ps
             ++ drawConnectionRaw o e worldMat bs liveBoneIds bone ps)
      end
  end.

(** [for (let i = 0; i < bones.length; i++)]: the slots from index [i]
    on, one after the other, until one throws. *)
Fixpoint boneLoop (step : nat → option RawBone.t → Outcome) (i : nat)
    (slots : list (option RawBone.t)) : Outcome :=
  match slots with
  | [] => Returned []
  | slot :: slots' =>
      match step i slot with
      | Threw calls => Threw calls
      | Returned calls => prefixed calls (boneLoop step (S i) slots')
      end
  end.

(** l.118-245 of [drawSkeleton]: what follows the three early returns,
    for the bone array [bs] and the world matrix [worldMat]. *)
Definition drawSkeletonRaw (o : SkeletonToolOptions) (e : Engine) (worldMat : Mat4)
    (isStandalone : bool) (bs : list (option RawBone.t))
    (liveBoneIds : option (list (option string))) : Outcome :=
  prefixed (if isStandalone then drawOrigin worldMat else [])
           (boneLoop (drawBoneRaw o e worldMat isStandalone bs liveBoneIds) 0 bs).

(** No iteration of the loop throws: every slot holds a bone that has a
    live matrix or a bind pose. *)
Definition resolves (e : Engine) (liveBoneIds : option (list (option string)))
    (i : nat) (slot : option RawBone.t) : bool :=
  match slot with
  | None => false
  | Some bone =>
      match liveWorldMatrix e liveBoneIds i, RawBone.bindPose bone with
      | None, None => false
      | _, _ => true
      end
  end.

Definition allResolve (e : Engine) (liveBoneIds : option (list (option string)))
    (bs : list (option RawBone.t)) : bool :=
  forallb (λ b : bool, b) (imap (resolves e liveBoneIds) bs).
End RawDrawing.

(** A typed bone as a slot of the raw array. *)
Definition ofInt (z : Z) : float :=
  match z with
  | Z0 => 0%float
  | Zpos n => ofNat (Pos.to_nat n)
  | Zneg n => (- ofNat (Pos.to_nat n))%float
  end.

Definition rawOf (bone : Bone.t) : option RawBone.t :=
  Some (RawBone.mk
          (match Bone.parentIndex bone with
           | Some p => JsNumber (ofInt p)
           | None => JsUndefined
           end)
          (Some (Bone.bindPose bone))
          (Bone.visual bone)).

(** ** A running example *)

Module Example.
(** Truncated series, good enough to run [drawWireSphere]; every
    theorem below holds for any [Math.cos] and [Math.sin]. *)
Definition cos_series (t : float) : float :=
  let t2 := (t * t)%float in
  fold_right (λ d acc, 1 - t2 / d * acc)%float 1%float
    [2; 12; 30; 56; 90; 132; 182; 240; 306; 380; 462; 552; 650; 756; 870]%float.
Definition sin_series (t : float) : float :=
  let t2 := (t * t)%float in
  (t * fold_right (λ d acc, 1 - t2 / d * acc) 1
         [6; 20; 42; 72; 110; 156; 210; 272; 342; 420; 506; 600; 702; 812; 930])%float.

#[export] Instance series : Math :=
  {| Math_cos := cos_series; Math_sin := sin_series |}.

Definition translation (tx ty tz : float) : Mat4 :=
  [1; 0; 0; 0;   0; 1; 0; 0;   0; 0; 1; 0;   tx; ty; tz; 1]%float.

Definition scaling (k : float) : Mat4 :=
  [k; 0; 0; 0;   0; k; 0; 0;   0; 0; k; 0;   0; 0; 0; 1]%float.

(** A quarter turn about Z, a uniform scale by 2 and a translation by
    [(10, 0, 0)]. *)
Definition turned : Mat4 :=
  [0; 2; 0; 0;   -2; 0; 0; 0;   0; 0; 2; 0;   10; 0; 0; 1]%float.

(** A live matrix whose X column is zero. *)
Definition flatX : Mat4 :=
  [0; 0; 0; 0;   0; 2; 0; 0;   0; 0; 1; 0;   7; 8; 9; 1]%float.

(** hip (root) <- spine <- head, and a stray bone whose parent is 9. *)
Definition hip : Bone.t := Bone.mk (Some (-1)%Z) (translation 0 1 0) None.
Definition spine : Bone.t := Bone.mk (Some 0%Z) (translation 0 2 0) None.
Definition head : Bone.t :=
  Bone.mk (Some 1%Z) (translation 0 3 0)
          (Some (Visual.mk (Some 2%float) None)).
Definition stray : Bone.t := Bone.mk (Some 9%Z) (translation 1 1 1) None.
Definition odd : Bone.t := Bone.mk (Some (-2)%Z) (translation 4 4 4) None.

Definition rig : Asset := mkAsset (Some (mkSkeleton (Some [hip; spine; head; stray]))).
Definition oddRig : Asset := mkAsset (Some (mkSkeleton (Some [hip; odd]))).

Definition am : AssetManager :=
  {| assets := {[ "rig" := rig; "oddRig" := oddRig ]};
     meshIntToUuid := {[ 3%Z := "rig" ]} |}.

(** "S" is a standalone skeleton that also has spawned bones, "M" is a
    skeletal mesh, "G" is a standalone entry with no world matrix whose
    bones are nevertheless live. *)
Definition engine : Engine :=
  {| debugRenderer := Some [];
     skeletonEntityAssetMap := [("S", "rig"); ("G", "rig")];
     skeletonMap := [("S", [Some "S.hip"; None; Some "S.head"]);
                     ("M", [Some "M.hip"]);
                     ("G", [Some "S.hip"])];
     ecs := {| idToIndex := {[ "M" := 0; "S" := 1 ]};
               store := {| isActive := [true; true]; meshType := [3%Z; 3%Z] |} |};
     sceneGraph := {[ "S" := translation 10 0 0;
                      "M" := scaling 2;
                      "S.hip" := translation 10 5 0;
                      "S.head" := flatX;
                      "M.hip" := translation 0 0 1 ]} |}.

(** hip (root) <- spine, and a limb whose parent index is 1.5. *)
Definition limb : RawBone.t :=
  RawBone.mk (JsNumber 1.5) (Some (translation 0 4 0)) None.

Definition crooked : list (option RawBone.t) := [rawOf hip; rawOf spine; Some limb].

(** The same with a bone that has no bind pose in the middle. *)
Definition bare : RawBone.t := RawBone.mk (JsNumber 0) None None.

Definition broken : list (option RawBone.t) := [rawOf hip; Some bare; Some limb].

Definition tool : SkeletonTool := newSkeletonTool.

Definition quiet : SkeletonTool :=
  setOptions (mkPartial None (Some false) (Some false) None None None None None None) tool.
End Example.

(** ** Notions used in the statements *)

(** [m * 2^k] on binary positive numbers. *)
Fixpoint pshl (m : positive) (k : nat) : positive :=
  match k with O => m | S k' => ((pshl m k')~0)%positive end.

(** Classes of values, read on the specification side. *)
Definition finSF (s : spec_float) : bool :=
  match s with S754_zero _ | S754_finite _ _ _ => true | _ => false end.
Definition zeroSF (s : spec_float) : bool :=
  match s with S754_zero _ => true | _ => false end.

(** The identity matrix. *)
Definition identity : Mat4 :=
  [1; 0; 0; 0;   0; 1; 0; 0;   0; 0; 1; 0;   0; 0; 0; 1]%float.

(** Equal, or zeros of either sign. *)
Definition sameNumber (a b : float) : Prop :=
  a = b ∨ (is_zero a = true ∧ is_zero b = true).

(** The condition under which the loop body reaches a call site, read
    off the branches of [drawSkeleton]. *)
Definition siteGuard (o : SkeletonToolOptions) (isStandalone : bool)
    (bs : list Bone.t) (bone : Bone.t) (s : Site) : bool :=
  let p := Bone.parentIndex bone in
  match s with
  | OriginAxis => false
  | RootAxis => isRoot p && (isStandalone || drawAxes o)
  | RootSphere => isRoot p && drawJoints o
  | JointPoint => negb (isRoot p) && drawJoints o
  | BoneAxis => negb (isRoot p) && drawAxes o
  | BoneLine =>
      negb (isRoot p) && drawBones o &&
      match p with
      | Some v => (0 <=? v)%Z && (v <? Z.of_nat (length bs))%Z
      | None => false
      end
  end.

(** Points are only drawn for joints; everything else is a line. *)
Definition sitePrim (c : Call) : bool :=
  match site c with
  | JointPoint => isPoint c
  | _ => isLine c
  end.

Definition guarded (o : SkeletonToolOptions) (isStandalone : bool)
    (bs : list Bone.t) (bone : Bone.t) (c : Call) : Prop :=
  siteGuard o isStandalone bs bone (site c) = true ∧ sitePrim c = true.

(** Every call of one [update] is either a line of an origin triad or a
    call of some bone's loop iteration, issued under its guard. *)
Definition fromBone (o : SkeletonToolOptions) (c : Call) : Prop :=
  (site c = OriginAxis ∧ isLine c = true) ∨
  ∃ isStandalone bs bone, guarded o isStandalone bs bone c.

Definition red : Color.t := Color.mk 1 0 0.
Definition green : Color.t := Color.mk 0 1 0.
Definition blue : Color.t := Color.mk 0 0 1.

(** The triad the specification describes: three segments from the
    translation of [worldMat] along its columns, scaled by 0.6. *)
Definition originTriad (worldMat : Mat4) : list Call :=
  let origin := Vec3.mk worldMat.[12] worldMat.[13] worldMat.[14] in
  [ mkCall OriginAxis
      (drawLine origin
         (Vec3.mk (worldMat.[12] + worldMat.[0] * 0.6)
                  (worldMat.[13] + worldMat.[1] * 0.6)
                  (worldMat.[14] + worldMat.[2] * 0.6)) red);
    mkCall OriginAxis
      (drawLine origin
         (Vec3.mk (worldMat.[12] + worldMat.[4] * 0.6)
                  (worldMat.[13] + worldMat.[5] * 0.6)
                  (worldMat.[14] + worldMat.[6] * 0.6)) green);
    mkCall OriginAxis
      (drawLine origin
         (Vec3.mk (worldMat.[12] + worldMat.[8] * 0.6)
                  (worldMat.[13] + worldMat.[9] * 0.6)
                  (worldMat.[14] + worldMat.[10] * 0.6)) blue) ].

(** One invocation, run. *)
Definition invoke {M : Math} (this : SkeletonTool) (am : AssetManager) (e : Engine)
    (inv : Invocation) : list Call :=
  drawSkeleton this am e (inv_assetId inv) (inv_entityId inv) (inv_isStandalone inv).

(** * StaticMeshEditor: the orbit camera *)

(** [Math.max(a, b)] and [Math.min(a, b)] on two numbers: NaN if either
    is NaN, and [-0] counts as smaller than [+0]. *)
Definition Math_max (a b : float) : float :=
  if is_nan a || is_nan b then nan
  else if (a <? b)%float then b
  else if (b <? a)%float then a
  else if get_sign a then b else a.

Definition Math_min (a b : float) : float :=
  if is_nan a || is_nan b then nan
  else if (a <? b)%float then a
  else if (b <? a)%float then b
  else if get_sign a then a else b.

Module Camera.
Record t := mk { theta : float; phi : float; radius : float; target : Vec3.t }.
End Camera.

(** The initial camera state of the editor. *)
Definition initialCamera : Camera.t := Camera.mk 0.5 1.2 3.0 (Vec3.mk 0 0 0).

Inductive DragMode := ORBIT | PAN | ZOOM.

Record DragState := mkDragState {
  mode : DragMode;
  startX : float;
  startY : float;
  startCamera : Camera.t
}.

(** The fields of a mouse event that the handlers read. *)
Record MouseEvent := mkMouseEvent {
  altKey : bool;
  button : Z;
  clientX : float;
  clientY : float
}.

(** [handleMouseDown]: the drag state it sets. *)
Definition handleMouseDown (e : MouseEvent) (camera : Camera.t) : DragState :=
  let mode :=
    if altKey e
    then (if (button e =? 0)%Z then ORBIT
          else if (button e =? 1)%Z then PAN
          else if (button e =? 2)%Z then ZOOM
          else ORBIT)
    else (if (button e =? 0)%Z then ORBIT
          else if (button e =? 1)%Z then PAN
          else if (button e =? 2)%Z then ZOOM
          else ORBIT) in
  {| mode := mode; startX := clientX e; startY := clientY e; startCamera := camera |}.

Section Editor.
(** The new target of a pan, computed with [Vec3Utils] (normalize, cross,
    scale, add) from the starting camera and the mouse deltas; those
    helpers are not part of these sources. *)
Variable panTarget : Camera.t -> float -> float -> Vec3.t.

(** [handleMouseMove]: the camera update it applies to the current
    camera [p] (the argument of the [setCamera] updater). *)
Definition handleMouseMove (dragState : option DragState) (e : MouseEvent)
    (p : Camera.t) : Camera.t :=
  match dragState with
  | None => p
  | Some ds =>
      let dx := (clientX e - startX ds)%float in
      let dy := (clientY e - startY ds)%float in
      match mode ds with
      | ORBIT =>
          Camera.mk
            (Camera.theta (startCamera ds) + dx * 0.01)
            (Math_max 0.1 (Math_min (Math_PI - 0.1)
                                    (Camera.phi (startCamera ds) - dy * 0.01)))
            (Camera.radius p) (Camera.target p)
      | ZOOM =>
          Camera.mk (Camera.theta p) (Camera.phi p)
            (Math_max 0.1 (Camera.radius (startCamera ds) - (dx - dy) * 0.05))
            (Camera.target p)
      | PAN =>
          Camera.mk (Camera.theta p) (Camera.phi p) (Camera.radius p)
            (panTarget (startCamera ds) dx dy)
      end
  end.
End Editor.

(** [onWheel]: the camera update for a wheel event with [deltaY]. *)
Definition onWheel (deltaY : float) (p : Camera.t) : Camera.t :=
  Camera.mk (Camera.theta p) (Camera.phi p)
    (Math_max 0.1 (Camera.radius p + deltaY * 0.01))
    (Camera.target p).

(** * ProjectPanel: folder navigation *)

(** [s.split('/')].  The separator is ASCII, so splitting the bytes of a
    string and splitting its UTF-16 code units give the same pieces. *)
Fixpoint split_slash (s : string) : list string :=
  match s with
  | EmptyString => [EmptyString]
  | String c s' =>
      if Ascii.eqb c "/" then EmptyString :: split_slash s'
      else match split_slash s' with
           | x :: r => String c x :: r
           | [] => [String c EmptyString]
           end
  end.

(** [Boolean(s)] on a string. *)
Definition nonEmpty (s : string) : bool :=
  match s with EmptyString => false | String _ _ => true end.

(** [l.join('/')]. *)
Definition join_slash (l : list string) : string := String.concat "/" l.

(** [path.split('/').filter(Boolean)]. *)
Definition pathParts (path : string) : list string :=
  filter (λ s, nonEmpty s = true) (split_slash path).

(** The navigation state of the panel: [currentPath] and the selection
    of the editor context. *)
Record PanelState := mkPanelState {
  currentPath : string;
  selectedAssetIds : list string
}.

Definition handleNavigate (path : string) (st : PanelState) : PanelState :=
  {| currentPath := path; selectedAssetIds := [] |}.

Definition handleBreadcrumb (index : nat) (st : PanelState) : PanelState :=
  let parts := pathParts (currentPath st) in
  let newPath := "/" +:+ join_slash (take (index + 1) parts) in
  handleNavigate newPath st.

(** The FOLDER branch of [handleOpen], for a folder asset called [name]. *)
Definition handleOpenFolder (name : string) (st : PanelState) : PanelState :=
  handleNavigate
    ((if String.eqb (currentPath st) "/" then "" else currentPath st) +:+ "/" +:+ name) st.

(** [s || '/']. *)
Definition orSlash (s : string) : string := if nonEmpty s then s else "/".

(** The ".." entry: [currentPath.split('/').slice(0, -1).join('/') || '/']. *)
Definition handleUp (st : PanelState) : PanelState :=
  handleNavigate (orSlash (join_slash (removelast (split_slash (currentPath st))))) st.

(** ** Notions used in the further properties *)

(** A string without a slash. *)
Fixpoint noSlash (s : string) : bool :=
  match s with
  | EmptyString => true
  | String c s' => negb (Ascii.eqb c "/") && noSlash s'
  end.

(** A folder name: not empty, no slash. *)
Definition segment (s : string) : Prop := noSlash s = true ∧ nonEmpty s = true.

(** The path with the given folder names: ["/a/b/c"], and ["/"] for none. *)
Definition pathOf (ps : list string) : string := "/" +:+ join_slash ps.

(** A camera that looks at its target from a distance of at least 0.1
    and stays off the poles: [phi] within [0.1, PI - 0.1]. *)
Definition cameraInRange (c : Camera.t) : Prop :=
  (Camera.radius c <? 0.1)%float = false ∧
  (Camera.phi c <? 0.1)%float = false ∧
  (Math_PI - 0.1 <? Camera.phi c)%float = false.


(** [{...p, ...q}] on partial options: a key of [q] wins over the same
    key of [p]. *)
Definition overridePartial (p q : PartialOptions) : PartialOptions :=
  {| p_enabled := match p_enabled q with Some v => Some v | None => p_enabled p end;
     p_drawJoints := match p_drawJoints q with Some v => Some v | None => p_drawJoints p end;
     p_drawBones := match p_drawBones q with Some v => Some v | None => p_drawBones p end;
     p_drawAxes := match p_drawAxes q with Some v => Some v | None => p_drawAxes p end;
     p_jointRadius := match p_jointRadius q with Some v => Some v | None => p_jointRadius p end;
     p_rootScale := match p_rootScale q with Some v => Some v | None => p_rootScale p end;
     p_boneColor := match p_boneColor q with Some v => Some v | None => p_boneColor p end;
     p_rootColor := match p_rootColor q with Some v => Some v | None => p_rootColor p end;
     p_border := match p_border q with Some v => Some v | None => p_border p end |}.

(** [{}]. *)
Definition emptyPartial : PartialOptions :=
  mkPartial None None None None None None None None None.

(** A polyline from [start]: every call is a segment that starts where
    the previous one ended. *)
Fixpoint chained (start : Vec3.t) (l : list Call) : Prop :=
  match l with
  | [] => True
  | c :: l' =>
      match prim c with
      | drawLine a b _ => a = start ∧ chained b l'
      | drawPoint _ _ _ _ => False
      end
  end.

(** A segment both of whose ends have coordinate [coord] equal to [v]. *)
Definition inPlane (coord : Vec3.t -> float) (v : float) (c : Call) : Prop :=
  match prim c with
  | drawLine a b _ => coord a = v ∧ coord b = v
  | drawPoint _ _ _ _ => False
  end.

(** A segment of colour [color] issued from site [s]. *)
Definition segmentOf (s : Site) (color : Color.t) (c : Call) : Prop :=
  site c = s ∧ ∃ a b, prim c = drawLine a b color.

(** The styling of a call, by the site it comes from. *)
Definition styled (o : SkeletonToolOptions) (c : Call) : Prop :=
  match site c, prim c with
  | BoneLine, drawLine _ _ color => color = boneColor o
  | RootSphere, drawLine _ _ color => color = rootColor o
  | JointPoint, drawPoint _ _ _ b => b = border o
  | (OriginAxis | RootAxis | BoneAxis), drawLine _ _ color =>
      color = red ∨ color = green ∨ color = blue
  | _, _ => False
  end.

(** The sites of the calls of one loop iteration, in order. *)
Definition boneSites (o : SkeletonToolOptions) (isStandalone : bool)
    (bs : list Bone.t) (bone : Bone.t) : list Site :=
  if isRoot (Bone.parentIndex bone)
  then (if isStandalone || drawAxes o then replicate 3 RootAxis else [])
       ++ (if drawJoints o then replicate 36 RootSphere else [])
  else (if drawJoints o then [JointPoint] else [])
       ++ (if drawAxes o then replicate 3 BoneAxis else [])
       ++ (if siteGuard o isStandalone bs bone BoneLine then [BoneLine] else []).

(** ** Notions used in the statement of the bind-pose fallback *)

(** The world matrix of a uniform scale by [k] followed by a translation
    by [(tx, ty, tz)]. *)
Definition scaleTranslate (k tx ty tz : float) : Mat4 :=
  [k; 0; 0; 0;   0; k; 0; 0;   0; 0; k; 0;   tx; ty; tz; 1]%float.

(** Component-wise [sameNumber]. *)
Definition sameVec (u v : Vec3.t) : Prop :=
  sameNumber (Vec3.x u) (Vec3.x v) ∧
  sameNumber (Vec3.y u) (Vec3.y v) ∧
  sameNumber (Vec3.z u) (Vec3.z v).

(** * IEEE 754 facts used below

    Derived from the specification of the primitive operations
    ([SpecFloat], through the [_spec] equations of [FloatAxioms]). *)

Section Arithmetic.
Local Open Scope Z_scope.

Lemma digits_pshl m k :
  Z.pos (digits2_pos (pshl m k)) = Z.pos (digits2_pos m) + Z.of_nat k.
Proof.
  induction k as [|k IH]; [cbn; lia|].
  cbn [pshl digits2_pos]. rewrite Pos2Z.inj_succ, IH. lia.
Qed.

Lemma pshl_mul m k : Z.pos (pshl m k) = Z.pos m * 2 ^ Z.of_nat k.
Proof.
  induction k as [|k IH]; [cbn; lia|].
  cbn [pshl]. rewrite Pos2Z.inj_xO, IH, Nat2Z.inj_succ, Z.pow_succ_r by lia. lia.
Qed.

Lemma iter_pos_nat {A} (f : A → A) p x :
  SpecFloat.iter_pos f p x = Nat.iter (Pos.to_nat p) f x.
Proof.
  revert x. induction p as [p IH|p IH|]; intros x; cbn [SpecFloat.iter_pos].
  - rewrite !IH, Pos2Nat.inj_xI. cbn [Nat.iter].
    rewrite <- Nat.iter_succ_r, <- Nat.iter_add. f_equal. lia.
  - rewrite !IH, Pos2Nat.inj_xO, <- Nat.iter_add. f_equal. lia.
  - reflexivity.
Qed.

Lemma shr_pshl m k :
  Nat.iter k shr_1 (Build_shr_record (Z.pos (pshl m k)) false false)
  = Build_shr_record (Z.pos m) false false.
Proof.
  induction k as [|k IH]; [reflexivity|].
  rewrite Nat.iter_succ_r. exact IH.
Qed.

Lemma valid_finite s m e :
  valid_binary (S754_finite s m e) = true →
  Z.max (Z.pos (digits2_pos m) + e - 53) (-1074) = e ∧ e ≤ 971.
Proof.
  unfold valid_binary, bounded, canonical_mantissa, fexp, emin, prec, emax.
  intros [Hc He]%andb_prop. apply Z.eqb_eq in Hc. apply Z.leb_le in He.
  split; [exact Hc | exact He].
Qed.

(** Rounding [m * 2^k] at exponent [e - k] gives back [m] at [e]. *)
Lemma round_pshl s m e k e' :
  Z.max (Z.pos (digits2_pos m) + e - 53) (-1074) = e → e ≤ 971 →
  e' = e - Z.of_nat k →
  binary_round_aux prec emax s (Z.pos (pshl m k)) e' loc_Exact
  = S754_finite s m e.
Proof.
  intros Hc He ->.
  unfold binary_round_aux, shr_fexp, fexp, emin, prec, emax.
  cbn [Zdigits2 shr_record_of_loc].
  change (3 - 1024 - 53) with (-1074). change (1024 - 53) with 971.
  rewrite digits_pshl.
  replace (Z.pos (digits2_pos m) + Z.of_nat k + (e - Z.of_nat k) - 53)
    with (Z.pos (digits2_pos m) + e - 53) by lia.
  rewrite Hc.
  replace (e - (e - Z.of_nat k)) with (Z.of_nat k) by lia.
  assert (shr (Build_shr_record (Z.pos (pshl m k)) false false) (e - Z.of_nat k) (Z.of_nat k)
          = (Build_shr_record (Z.pos m) false false, e)) as ->.
  { destruct k as [|k].
    - unfold shr. cbn [Z.of_nat pshl]. f_equal. lia.
    - unfold shr. destruct (Z.of_nat (S k)) as [|p|p] eqn:Hk; [lia| |lia].
      rewrite iter_pos_nat. replace (Pos.to_nat p) with (S k) by lia.
      rewrite shr_pshl. f_equal. lia. }
  cbn [shr_m loc_of_shr_record round_nearest_even Zdigits2 shr_record_of_loc].
  rewrite Hc, Z.sub_diag. cbn [shr shr_m].
  by rewrite (proj2 (Z.leb_le e 971) He).
Qed.

Lemma mul_one_l (x : float) : (1 * x)%float = x.
Proof.
  apply Prim2SF_inj. rewrite mul_spec.
  pose proof (Prim2SF_valid x) as Hv.
  destruct (Prim2SF x) as [s|s| |s m e].
  1-3: try destruct s; reflexivity.
  apply valid_finite in Hv as [Hc He].
  change (Prim2SF 1) with (S754_finite false 4503599627370496 (-52)).
  unfold SF64mul, SFmul. cbn [xorb].
  change (4503599627370496 * m)%positive with (pshl m 52).
  apply round_pshl; [done|done|]. cbn. lia.
Qed.

Lemma div_eucl_exact a q :
  a = 4503599627370496 * q →
  Z.div_eucl a 4503599627370496 = (q, 0).
Proof.
  intros ->. pose proof (Z_div_mod (4503599627370496 * q) 4503599627370496 eq_refl) as H.
  destruct (Z.div_eucl _ _) as [q' r]. destruct H as [H1 H2].
  f_equal; lia.
Qed.

Lemma div_core_one m e :
  Z.max (Z.pos (digits2_pos m) + e - 53) (-1074) = e →
  ∃ k : nat,
    SFdiv_core_binary prec emax (Z.pos m) e 4503599627370496 (-52)
    = (Z.pos (pshl m k), e - Z.of_nat k, loc_Exact).
Proof.
  intros Hc. unfold SFdiv_core_binary, fexp, emin, prec, emax.
  change (Zdigits2 4503599627370496) with 53. cbn [Zdigits2].
  change (3 - 1024 - 53) with (-1074).
  destruct (Z.eq_dec e (-1074)) as [->|Hne].
  - exists 0%nat.
    replace (Z.min _ _) with (-1074) by lia.
    change (-1074 - -52 - -1074) with 52.
    change (Z.shiftl (Z.pos m) 52) with (Z.pos (pshl m 52)).
    rewrite (div_eucl_exact _ (Z.pos m)).
    + reflexivity.
    + rewrite pshl_mul. change (2 ^ Z.of_nat 52) with 4503599627370496. lia.
  - exists 1%nat.
    replace (Z.min _ _) with (e - 1) by lia.
    replace (e - -52 - (e - 1)) with 53 by lia.
    change (Z.shiftl (Z.pos m) 53) with (Z.pos (pshl m 53)).
    rewrite (div_eucl_exact _ (Z.pos (pshl m 1))).
    + reflexivity.
    + rewrite !pshl_mul. change (2 ^ Z.of_nat 53) with 9007199254740992.
      change (2 ^ Z.of_nat 1) with 2. lia.
Qed.

Lemma div_one_r (x : float) : (x / 1)%float = x.
Proof.
  apply Prim2SF_inj. rewrite div_spec.
  pose proof (Prim2SF_valid x) as Hv.
  destruct (Prim2SF x) as [s|s| |s m e].
  1-3: try destruct s; reflexivity.
  apply valid_finite in Hv as [Hc He].
  change (Prim2SF 1) with (S754_finite false 4503599627370496 (-52)).
  unfold SF64div, SFdiv. rewrite xorb_false_r.
  destruct (div_core_one m e Hc) as [k ->].
  by apply round_pshl.
Qed.

Lemma SFcompare_refl s : s ≠ S754_nan → SFcompare s s = Some Eq.
Proof.
  destruct s as [b|b| |b m e]; intros Hn; try done; cbn.
  - by destruct b.
  - rewrite Z.compare_refl, Pos.compare_cont_refl. by destruct b.
Qed.

Lemma is_nan_spec x : is_nan x = true ↔ Prim2SF x = S754_nan.
Proof.
  unfold is_nan. rewrite FloatAxioms.eqb_spec. unfold SFeqb.
  destruct (Prim2SF x) as [b|b| |b m e] eqn:Hx.
  4: rewrite SFcompare_refl by done.
  all: try destruct b; cbn; split; done.
Qed.

Lemma is_finite_spec x : is_finite x = true ↔ finSF (Prim2SF x) = true.
Proof.
  unfold is_finite, is_infinity.
  rewrite negb_true_iff, orb_false_iff, <- not_true_iff_false, is_nan_spec.
  rewrite FloatAxioms.eqb_spec, abs_spec. change (Prim2SF infinity) with (S754_infinity false).
  unfold SFeqb. destruct (Prim2SF x) as [b|b| |b m e]; cbn; split; try done; intros []; done.
Qed.

Lemma is_zero_spec x : is_zero x = true ↔ zeroSF (Prim2SF x) = true.
Proof.
  unfold is_zero. rewrite FloatAxioms.eqb_spec. change (Prim2SF 0) with (S754_zero false).
  unfold SFeqb. destruct (Prim2SF x) as [b|b| |b m e]; cbn; split; try done; by destruct b.
Qed.

Lemma sameNumber_refl a : sameNumber a a.
Proof. by left. Qed.

Lemma sameNumber_eqb a b : sameNumber a b → is_nan b = false → (a =? b)%float = true.
Proof.
  intros [->|[Ha Hb]] Hnan.
  - rewrite FloatAxioms.eqb_spec. unfold SFeqb. rewrite SFcompare_refl; [done|].
    intros Hb%is_nan_spec. congruence.
  - apply is_zero_spec in Ha, Hb. rewrite FloatAxioms.eqb_spec.
    by destruct (Prim2SF a), (Prim2SF b).
Qed.

Lemma mul_zero_l y : is_finite y = true → is_zero (0 * y)%float = true.
Proof.
  rewrite is_finite_spec, is_zero_spec, mul_spec.
  change (Prim2SF 0) with (S754_zero false). by destruct (Prim2SF y).
Qed.

Lemma add_zero_r a z :
  is_finite a = true → is_zero z = true → sameNumber (a + z)%float a.
Proof.
  rewrite is_finite_spec. intros Ha Hz. pose proof Hz as Hz'. apply is_zero_spec in Hz'.
  destruct (Prim2SF a) as [b|b| |b m e] eqn:Ea; try done.
  - right. split; [|by apply is_zero_spec; rewrite Ea].
    apply is_zero_spec. rewrite add_spec, Ea.
    destruct (Prim2SF z) as [c| | |]; try done. by destruct b, c.
  - left. apply Prim2SF_inj. rewrite add_spec, Ea. by destruct (Prim2SF z).
Qed.

Lemma add_zero_l a z :
  is_finite a = true → is_zero z = true → sameNumber (z + a)%float a.
Proof.
  rewrite is_finite_spec. intros Ha Hz. pose proof Hz as Hz'. apply is_zero_spec in Hz'.
  destruct (Prim2SF a) as [b|b| |b m e] eqn:Ea; try done.
  - right. split; [|by apply is_zero_spec; rewrite Ea].
    apply is_zero_spec. rewrite add_spec, Ea.
    destruct (Prim2SF z) as [c| | |]; try done. by destruct b, c.
  - left. apply Prim2SF_inj. rewrite add_spec, Ea. by destruct (Prim2SF z).
Qed.

Lemma is_zero_finite z : is_zero z = true → is_finite z = true.
Proof. rewrite is_zero_spec, is_finite_spec. by destruct (Prim2SF z). Qed.

Lemma sameNumber_add_zero a b z :
  sameNumber a b → is_finite b = true → is_zero z = true →
  sameNumber (a + z)%float b.
Proof.
  intros [->|[Ha Hb]] Hfin Hz; [by apply add_zero_r|].
  right. split; [|done].
  destruct (add_zero_r a z (is_zero_finite _ Ha) Hz) as [->|[? _]]; done.
Qed.

(** NaN propagates through the length computation. *)
Lemma mul_nan a : is_nan a = true → is_nan (a * a)%float = true.
Proof. rewrite !is_nan_spec, mul_spec. by intros ->. Qed.
Lemma add_nan_l a b : is_nan a = true → is_nan (a + b)%float = true.
Proof. rewrite !is_nan_spec, add_spec. by intros ->. Qed.
Lemma add_nan_r a b : is_nan b = true → is_nan (a + b)%float = true.
Proof. rewrite !is_nan_spec, add_spec. intros ->. by destruct (Prim2SF a). Qed.
Lemma sqrt_nan a : is_nan a = true → is_nan (sqrt a) = true.
Proof. rewrite !is_nan_spec, sqrt_spec. by intros ->. Qed.
Lemma eqb_nan a b : is_nan a = true → (a =? b)%float = false.
Proof. rewrite is_nan_spec, FloatAxioms.eqb_spec. by intros ->. Qed.

Lemma add_zeros a b :
  is_zero a = true → is_zero b = true → is_zero (a + b)%float = true.
Proof.
  intros Ha Hb.
  by destruct (add_zero_r a b (is_zero_finite _ Ha) Hb) as [->|[? _]].
Qed.
End Arithmetic.

(** * Properties *)

Section Properties.
Context {M : Math}.

(** ** What each drawing helper emits *)

Lemma drawAxis_Forall (P : Call -> Prop) s origin xAxis yAxis zAxis scale :
  (∀ a b color, P (mkCall s (drawLine a b color))) →
  Forall P (drawAxis s origin xAxis yAxis zAxis scale).
Proof. intros HP. unfold drawAxis. repeat constructor; apply HP. Qed.

Lemma circleLoop_Forall (P : Call -> Prop) s next color prev i count :
  (∀ a b c, P (mkCall s (drawLine a b c))) →
  Forall P (circleLoop s next color prev i count).
Proof.
  intros HP. revert prev i.
  induction count as [|count IH]; intros prev i; simpl; constructor; auto.
Qed.

Lemma circleLoop_length s next color prev i count :
  length (circleLoop s next color prev i count) = count.
Proof.
  revert prev i. induction count as [|count IH]; intros prev i; simpl; auto.
Qed.

Lemma drawWireSphere_Forall (P : Call -> Prop) s center radius color :
  (∀ a b c, P (mkCall s (drawLine a b c))) →
  Forall P (drawWireSphere s center radius color).
Proof.
  intros HP. unfold drawWireSphere.
  rewrite !Forall_app. repeat split; by apply circleLoop_Forall.
Qed.

(** A wire sphere is three loops of twelve segments. *)
Lemma drawWireSphere_length s center radius color :
  length (drawWireSphere s center radius color) = 36.
Proof.
  unfold drawWireSphere. rewrite !length_app, !circleLoop_length. reflexivity.
Qed.

(** ** Lifting a property of the calls through the loops *)

Lemma drawSkeleton_Forall (P : Call -> Prop) this am e assetId entityId isStandalone :
  (isStandalone = true → ∀ a b c, P (mkCall OriginAxis (drawLine a b c))) →
  (∀ worldMat bs liveBoneIds i bone,
      Forall P (drawBone (options this) e worldMat isStandalone bs liveBoneIds i bone)) →
  Forall P (drawSkeleton this am e assetId entityId isStandalone).
Proof.
  intros Horigin Hbone. unfold drawSkeleton.
  destruct (getAsset am assetId) as [asset|]; [|constructor].
  destruct (skeleton asset ≫= bones) as [bs|]; [|constructor].
  destruct (getWorldMatrix e entityId) as [worldMat|]; [|constructor].
  apply Forall_app. split.
  - destruct isStandalone; [|constructor].
    apply drawAxis_Forall. by apply Horigin.
  - apply Forall_concat, Forall_forall. intros chunk Hin.
    apply elem_of_lookup_imap in Hin as (i & bone & -> & _). apply Hbone.
Qed.

Lemma updateCalls_Forall (P : Call -> Prop) this am e :
  (∀ assetId entityId isStandalone,
      Forall P (drawSkeleton this am e assetId entityId isStandalone)) →
  Forall P (updateCalls this am e).
Proof.
  intros Hdraw. unfold updateCalls.
  destruct (negb _); [constructor|].
  destruct (debugRenderer e); [|constructor].
  apply Forall_app. split; apply Forall_flat_map, Forall_forall.
  - intros [entityId assetId] _. apply Hdraw.
  - intros [entityId ids] _. unfold drawSkeletalMesh.
    destruct (JsMap_has _ _); [constructor|].
    destruct (meshAssetOf am e entityId); [apply Hdraw|constructor].
Qed.

(** ** The guard of every call site of the loop body *)

Lemma drawBone_guarded o e worldMat isStandalone bs liveBoneIds i bone :
  Forall (guarded o isStandalone bs bone)
         (drawBone o e worldMat isStandalone bs liveBoneIds i bone).
Proof.
  unfold drawBone, guarded, siteGuard.
  set (ps := resolvePose e worldMat liveBoneIds i bone). clearbody ps.
  destruct (isRoot (Bone.parentIndex bone)) eqn:Hroot; rewrite !Forall_app;
    repeat split.
  - unfold drawRoot. apply Forall_app. split.
    + destruct (isStandalone || drawAxes o) eqn:Hax; [|constructor].
      apply drawAxis_Forall. intros a b c. by cbn; rewrite ?Hroot, ?Hax.
    + destruct (drawJoints o) eqn:Hj; [|constructor].
      apply drawWireSphere_Forall. intros a b c. by cbn; rewrite ?Hroot, ?Hj.
  - unfold drawBoneAxes. rewrite andb_false_r. constructor.
  - unfold drawConnection. destruct (Bone.parentIndex bone) as [p|]; [|constructor].
    rewrite Hroot, andb_false_r. constructor.
  - unfold drawJoint. destruct (drawJoints o) eqn:Hj; repeat constructor.
  - unfold drawBoneAxes. destruct (drawAxes o) eqn:Hax; [|constructor].
    apply drawAxis_Forall. intros a b c. by cbn; rewrite ?Hroot, ?Hax.
  - unfold drawConnection. destruct (Bone.parentIndex bone) as [p|]; [|constructor].
    rewrite Hroot.
    destruct (drawBones o) eqn:Hb; [|constructor]. cbn.
    destruct ((0 <=? p)%Z && (p <? Z.of_nat (length bs))%Z) eqn:Hp;
      rewrite ?Hp; repeat constructor; by cbn; rewrite ?Hp.
Qed.

Lemma drawSkeleton_fromBone this am e assetId entityId isStandalone :
  Forall (fromBone (options this))
         (drawSkeleton this am e assetId entityId isStandalone).
Proof.
  apply drawSkeleton_Forall.
  - intros _ a b c. by left.
  - intros worldMat bs liveBoneIds i bone.
    eapply Forall_impl; [apply drawBone_guarded|].
    intros c Hc. right. eauto.
Qed.

Lemma updateCalls_fromBone this am e :
  Forall (fromBone (options this)) (updateCalls this am e).
Proof. apply updateCalls_Forall. intros. apply drawSkeleton_fromBone. Qed.

(** ** Option gates *)

(** C4. With [drawBones] off no bone-to-parent segment is emitted; with
    [drawJoints] off no point and no wire-sphere segment is emitted; with
    [enabled] off nothing at all is emitted.  This holds for every tool,
    asset registry and engine state. *)
Theorem option_gates this am e :
  (drawBones (options this) = false →
     Forall (λ c, site c ≠ BoneLine) (updateCalls this am e)) ∧
  (drawJoints (options this) = false →
     Forall (λ c, isPoint c = false ∧ site c ≠ JointPoint ∧ site c ≠ RootSphere)
            (updateCalls this am e)) ∧
  (enabled (options this) = false → updateCalls this am e = []).
Proof.
  repeat split.
  - intros Hoff. eapply Forall_impl; [apply updateCalls_fromBone|].
    intros c [[Hs _]|(sa & bs & bone & Hg & _)] Hsite.
    + congruence.
    + rewrite Hsite in Hg. cbn in Hg. rewrite Hoff, andb_false_r in Hg. discriminate.
  - intros Hoff. eapply Forall_impl; [apply updateCalls_fromBone|].
    intros c [[Hs Hl]|(sa & bs & bone & Hg & Hp)].
    + unfold isPoint. rewrite Hl, Hs. by repeat split.
    + unfold sitePrim in Hp. unfold isPoint in *.
      destruct (site c) eqn:Hs; cbn in Hg; rewrite ?Hoff, ?andb_false_r in Hg;
        try discriminate; rewrite Hp; by repeat split.
  - intros Hoff. unfold updateCalls. by rewrite Hoff.
Qed.

(** ** Pose resolution *)

(** When a bone has a usable live matrix. *)
Lemma liveWorldMatrix_Some e liveBoneIds k liveWm :
  liveWorldMatrix e liveBoneIds k = Some liveWm ↔
  ∃ ids liveBoneId,
    liveBoneIds = Some ids ∧ ids !! k = Some (Some liveBoneId) ∧
    liveBoneId ≠ "" ∧ getWorldMatrix e liveBoneId = Some liveWm.
Proof.
  unfold liveWorldMatrix. split.
  - destruct liveBoneIds as [ids|]; [|done].
    destruct (ids !! k) as [[liveBoneId|]|] eqn:Hk; try done.
    case_bool_decide; [done|]. intros Hwm. by exists ids, liveBoneId.
  - intros (ids & liveBoneId & -> & -> & Hne & Hwm).
    by rewrite bool_decide_eq_false_2.
Qed.

(** C1. If the overlay of the instance has a live entity for bone [i]
    and the scene graph has a world matrix for it, the resolved position
    is that matrix's translation (entries 12, 13, 14), whatever the bone
    and its bind pose are. *)
Theorem live_position_wins e entityId worldMat ids i liveBoneId liveWm bone :
  JsMap_get (skeletonMap e) entityId = Some ids →
  ids !! i = Some (Some liveBoneId) →
  liveBoneId ≠ "" →
  getWorldMatrix e liveBoneId = Some liveWm →
  pos (resolvePose e worldMat (JsMap_get (skeletonMap e) entityId) i bone)
  = Vec3.mk liveWm.[12] liveWm.[13] liveWm.[14].
Proof.
  intros Hids Hi Hne Hwm. unfold resolvePose.
  assert (liveWorldMatrix e (JsMap_get (skeletonMap e) entityId) i = Some liveWm)
    as -> by (apply liveWorldMatrix_Some; eauto 6).
  reflexivity.
Qed.

(** ** Missing instance matrix *)

(** C10. If the scene graph has no world matrix for the instance's own
    entity, [drawSkeleton] emits nothing for it, whatever the overlay and
    the live matrices of its bones are. *)
Theorem no_instance_matrix_no_calls this am e assetId entityId isStandalone :
  getWorldMatrix e entityId = None →
  drawSkeleton this am e assetId entityId isStandalone = [].
Proof.
  intros Hwm. unfold drawSkeleton.
  destruct (getAsset am assetId) as [asset|]; [|done].
  destruct (skeleton asset ≫= bones) as [bs|]; [|done].
  by rewrite Hwm.
Qed.

(** ** The origin triad of standalone instances *)

(** C8. For a standalone instance whose asset has a bone array and whose
    entity has a world matrix, an enabled [update] emits the red, green
    and blue segments of the origin triad, at the translation of that
    matrix and with scale 0.6, as three consecutive calls.  [drawAxes]
    plays no part. *)
Theorem standalone_origin_triad this am e debug entityId assetId asset bs worldMat :
  enabled (options this) = true →
  debugRenderer e = Some debug →
  (entityId, assetId) ∈ skeletonEntityAssetMap e →
  getAsset am assetId = Some asset →
  skeleton asset ≫= bones = Some bs →
  getWorldMatrix e entityId = Some worldMat →
  ∃ before after,
    updateCalls this am e = before ++ originTriad worldMat ++ after.
Proof.
  intros Hen Hdbg Hin Hasset Hbs Hwm.
  apply list_elem_of_split in Hin as (l1 & l2 & Hsplit).
  unfold updateCalls. rewrite Hen, Hdbg, Hsplit. cbn [negb].
  rewrite flat_map_app. cbn [flat_map drawStandalone].
  unfold drawSkeleton at 1. rewrite Hasset, Hbs, Hwm.
  eexists (flat_map _ l1), _.
  rewrite <- !app_assoc. reflexivity.
Qed.

(** ** Roots *)

Lemma isRoot_spec p : isRoot p = true ↔ p = None ∨ p = Some (-1)%Z.
Proof.
  destruct p as [v|]; cbn.
  - rewrite Z.eqb_eq. split; [intros ->; by right|]. intros [|]; congruence.
  - split; [by left|done].
Qed.

(** A call site whose guard holds is reached: the loop body emits a call
    from it. *)
Lemma drawBone_reaches o e worldMat isStandalone bs liveBoneIds i bone s :
  siteGuard o isStandalone bs bone s = true →
  ∃ c, c ∈ drawBone o e worldMat isStandalone bs liveBoneIds i bone ∧ site c = s.
Proof.
  unfold drawBone, siteGuard.
  set (ps := resolvePose e worldMat liveBoneIds i bone). clearbody ps.
  destruct s; [done|..]; intros Hg;
    repeat (apply andb_prop in Hg as [Hg ?]);
    try apply negb_true_iff in Hg; rewrite Hg.
  - unfold drawRoot. destruct (isStandalone || drawAxes o); [|done].
    eexists. split; [repeat (apply elem_of_app; left); by left | reflexivity].
  - unfold drawRoot. destruct (drawJoints o); [|done].
    eexists. split.
    { apply elem_of_app; left. apply elem_of_app; right.
      unfold drawWireSphere. apply elem_of_app; left. cbn. by left. }
    reflexivity.
  - unfold drawJoint. destruct (drawJoints o); [|done].
    eexists. split; [apply elem_of_app; left; by left | reflexivity].
  - unfold drawBoneAxes. destruct (drawAxes o); [|done]. cbn [negb andb].
    eexists. split;
      [apply elem_of_app; right; apply elem_of_app; left; by left | reflexivity].
  - unfold drawConnection. destruct (Bone.parentIndex bone) as [p|] eqn:Hp; [|done].
    rewrite Hg. destruct (drawBones o); [|done]. cbn [negb andb] in *.
    match goal with H : (_ && _) = true |- _ => rewrite H end.
    eexists. split; [do 2 (apply elem_of_app; right); by left | reflexivity].
Qed.

Lemma drawBone_no_connection o e worldMat isStandalone bs liveBoneIds i bone :
  (∀ p, Bone.parentIndex bone = Some p → (p < 0 ∨ Z.of_nat (length bs) ≤ p)%Z) →
  Forall (λ c, site c ≠ BoneLine)
         (drawBone o e worldMat isStandalone bs liveBoneIds i bone).
Proof.
  intros Hrange. eapply Forall_impl; [apply drawBone_guarded|].
  intros c [Hg _] Hsite. rewrite Hsite in Hg. cbn in Hg.
  destruct (Bone.parentIndex bone) as [p|]; [|by rewrite andb_false_r in Hg].
  specialize (Hrange p eq_refl).
  repeat (apply andb_prop in Hg as [Hg ?]). lia.
Qed.

(** C5, as the code has it.  A bone is a root exactly when its
    [parentIndex] is absent or equal to -1.  A root emits only the root
    triad (for a standalone instance or under [drawAxes]) and the root
    wire sphere (under [drawJoints]), and both are emitted when their
    option allows; a non-root emits neither.  A bone with any negative
    [parentIndex] draws no parent-connecting line. *)
Theorem root_classification o e worldMat isStandalone bs liveBoneIds i bone :
  (isRoot (Bone.parentIndex bone) = true ↔
     Bone.parentIndex bone = None ∨ Bone.parentIndex bone = Some (-1)%Z) ∧
  (isRoot (Bone.parentIndex bone) = true →
     Forall (λ c, site c = RootAxis ∨ site c = RootSphere)
            (drawBone o e worldMat isStandalone bs liveBoneIds i bone) ∧
     (isStandalone || drawAxes o = true →
        ∃ c, c ∈ drawBone o e worldMat isStandalone bs liveBoneIds i bone
             ∧ site c = RootAxis) ∧
     (drawJoints o = true →
        ∃ c, c ∈ drawBone o e worldMat isStandalone bs liveBoneIds i bone
             ∧ site c = RootSphere)) ∧
  (isRoot (Bone.parentIndex bone) = false →
     Forall (λ c, site c ≠ RootAxis ∧ site c ≠ RootSphere)
            (drawBone o e worldMat isStandalone bs liveBoneIds i bone)) ∧
  (∀ p, Bone.parentIndex bone = Some p → (p < 0)%Z →
     Forall (λ c, site c ≠ BoneLine)
            (drawBone o e worldMat isStandalone bs liveBoneIds i bone)).
Proof.
  split; [apply isRoot_spec|]. split; [|split].
  - intros Hroot. split; [|split].
    + eapply Forall_impl; [apply drawBone_guarded|].
      intros c [Hg _]. unfold siteGuard in Hg. rewrite Hroot in Hg.
      destruct (site c); cbn in Hg; try discriminate; auto.
    + intros Hax. apply drawBone_reaches. cbn. by rewrite Hroot, Hax.
    + intros Hj. apply drawBone_reaches. cbn. by rewrite Hroot, Hj.
  - intros Hroot. eapply Forall_impl; [apply drawBone_guarded|].
    intros c [Hg _]. unfold siteGuard in Hg. rewrite Hroot in Hg.
    destruct (site c); cbn in Hg; try discriminate; by split.
  - intros p Hp Hneg. apply drawBone_no_connection.
    intros p' Hp'. left. congruence.
Qed.

(** ** Malformed parent indices *)

(** ** Parent indices that name no bone *)

(** A number that passes [p >= 0] is not [-1]. *)
Lemma nonneg_not_minus_one v : (0 <=? v)%float = true → (v =? -1)%float = false.
Proof.
  rewrite leb_spec, FloatAxioms.eqb_spec.
  change (Prim2SF 0) with (S754_zero false).
  assert (Prim2SF (-1) = S754_finite true 4503599627370496 (-52)) as ->
    by (vm_compute; reflexivity).
  destruct (Prim2SF v) as [[]|[]| |[] m x]; intros H; try discriminate H; reflexivity.
Qed.

Lemma boneLoop_returns step (f : nat → option RawBone.t → list Call) i slots :
  (∀ j slot, slots !! j = Some slot → step (i + j)%nat slot = Returned (f (i + j)%nat slot)) →
  boneLoop step i slots = Returned (concat (imap (λ j, f (i + j)%nat) slots)).
Proof.
  revert i. induction slots as [|slot slots IH]; intros i Hstep; [done|].
  cbn [boneLoop imap concat].
  rewrite <- (Nat.add_0_r i) at 1. rewrite (Hstep 0%nat slot eq_refl).
  rewrite (IH (S i)).
  - cbn [prefixed]. do 3 f_equal. apply imap_ext. intros j x _.
    cbn. f_equal. lia.
  - intros j x Hj. replace (S i + j)%nat with (i + S j)%nat by lia. by apply Hstep.
Qed.

Lemma boneLoop_throws step i slots k slot calls :
  slots !! k = Some slot → step (i + k)%nat slot = Threw calls →
  ∃ calls', boneLoop step i slots = Threw calls'.
Proof.
  revert i k. induction slots as [|x slots IH]; intros i k Hk Hthrow; [done|].
  cbn [boneLoop]. destruct (step i x) as [cs|cs] eqn:Hx; [|by eexists].
  destruct k as [|k].
  - injection Hk as ->. rewrite Nat.add_0_r in Hthrow. congruence.
  - destruct (IH (S i) k Hk) as [calls' ->].
    + by replace (S i + k)%nat with (i + S k)%nat by lia.
    + by eexists.
Qed.

Lemma allResolve_lookup e liveBoneIds bs j slot :
  allResolve e liveBoneIds bs = true → bs !! j = Some slot →
  resolves e liveBoneIds j slot = true.
Proof.
  unfold allResolve. intros Hall%Is_true_true%forallb_True Hj.
  apply Is_true_true. apply (Forall_lookup_1 _ _ j _ Hall).
  by rewrite list_lookup_imap, Hj.
Qed.

Lemma allResolve_false e liveBoneIds bs :
  allResolve e liveBoneIds bs = false →
  ∃ k slot, bs !! k = Some slot ∧ resolves e liveBoneIds k slot = false.
Proof.
  unfold allResolve. generalize (resolves e liveBoneIds) as f.
  induction bs as [|x bs IH]; intros f; [done|].
  cbn [imap forallb]. destruct (f 0%nat x) eqn:Hx.
  - intros (k & slot & Hk & Hf)%IH. by exists (S k), slot.
  - intros _. by exists 0%nat, x.
Qed.

Lemma drawBoneRaw_resolves o e worldMat isStandalone bs liveBoneIds j slot :
  resolves e liveBoneIds j slot = true →
  ∃ bone ps,
    slot = Some bone ∧
    resolvePoseRaw e worldMat liveBoneIds j bone = Some ps ∧
    drawBoneRaw o e worldMat isStandalone bs liveBoneIds j slot
    = Returned
        (((if isRootRaw (RawBone.parentIndex bone)
           then drawRoot o isStandalone ps else drawJointRaw o bone ps)
          ++ drawBoneAxes o (isRootRaw (RawBone.parentIndex bone)) ps)
         ++ drawConnectionRaw o e worldMat bs liveBoneIds bone ps).
Proof.
  unfold resolves, drawBoneRaw, resolvePoseRaw.
  destruct slot as [bone|]; [|done]. intros Hres. exists bone.
  destruct (liveWorldMatrix e liveBoneIds j) as [liveWm|].
  - eexists. rewrite <- app_assoc. done.
  - destruct (RawBone.bindPose bone) as [bp|]; [|done].
    eexists. rewrite <- app_assoc. done.
Qed.

Lemma drawBoneRaw_throws o e worldMat isStandalone bs liveBoneIds j slot :
  resolves e liveBoneIds j slot = false →
  drawBoneRaw o e worldMat isStandalone bs liveBoneIds j slot = Threw [].
Proof.
  unfold resolves, drawBoneRaw, resolvePoseRaw.
  destruct slot as [bone|]; [|done].
  destruct (liveWorldMatrix e liveBoneIds j); [done|].
  by destruct (RawBone.bindPose bone).
Qed.

(** What an iteration draws before the connection line is no bone line. *)
Lemma joint_part_no_line o isStandalone (root : bool) bone ps :
  Forall (λ c, site c ≠ BoneLine)
         ((if root then drawRoot o isStandalone ps else drawJointRaw o bone ps)
          ++ drawBoneAxes o root ps).
Proof.
  apply Forall_app. split.
  - destruct root.
    + unfold drawRoot. apply Forall_app. split.
      * destruct (isStandalone || drawAxes o); [|constructor].
        by apply drawAxis_Forall.
      * destruct (drawJoints o); [|constructor].
        by apply drawWireSphere_Forall.
    + unfold drawJointRaw. destruct (drawJoints o); repeat constructor. done.
  - unfold drawBoneAxes. destruct (drawAxes o && negb root); [|constructor].
    by apply drawAxis_Forall.
Qed.

(** C6. The loop over a bone array read as [any[]], for a slot [i] that
    holds a bone.
    - The loop ends for every array.  It throws exactly when some slot
      of the array gives no pose (the slot is empty, or its bone has
      neither a live matrix nor a bind pose), whatever the parent
      indices are; otherwise it returns after one chunk of calls per
      slot, in order.
    - When it returns, the chunk of bone [i] has no bone-to-parent line
      if the parent index is not a number, or is a number for which
      [p >= 0] or [p < bones.length] is false: a negative number, a
      number from the bone count on, an infinity, NaN.
    - But a parent index that is a number in that range and still names
      no element of the array and no live bone (a fraction such as 1.5)
      passes the guard of the line: under [drawBones] the chunk of bone
      [i] ends with a line from the point [(0, 0, 0)] to the bone, in
      the bone colour. *)
Theorem invalid_parent_index o e worldMat isStandalone bs liveBoneIds i bone :
  bs !! i = Some (Some bone) →
  (allResolve e liveBoneIds bs = false →
   ∃ calls, drawSkeletonRaw o e worldMat isStandalone bs liveBoneIds = Threw calls) ∧
  (allResolve e liveBoneIds bs = true →
   ∃ chunks chunk ps,
     drawSkeletonRaw o e worldMat isStandalone bs liveBoneIds
     = Returned ((if isStandalone then originTriad worldMat else []) ++ concat chunks) ∧
     length chunks = length bs ∧
     chunks !! i = Some chunk ∧
     resolvePoseRaw e worldMat liveBoneIds i bone = Some ps ∧
     ((∀ p, RawBone.parentIndex bone = JsNumber p →
            (0 <=? p)%float = false ∨ (p <? ofNat (length bs))%float = false) →
      Forall (λ c, site c ≠ BoneLine) chunk) ∧
     (∀ p, RawBone.parentIndex bone = JsNumber p →
           drawBones o = true →
           (0 <=? p)%float = true →
           (p <? ofNat (length bs))%float = true →
           jsIndex bs p = None →
           liveWorldMatrixAt e liveBoneIds p = None →
           ∃ before,
             chunk = before ++ [mkCall BoneLine
                                  (drawLine (Vec3.mk 0 0 0) (pos ps) (boneColor o))] ∧
             Forall (λ c, site c ≠ BoneLine) before)).
Proof.
  intros Hi. split.
  - intros (k & slot & Hk & Hres)%allResolve_false.
    unfold drawSkeletonRaw.
    destruct (boneLoop_throws (drawBoneRaw o e worldMat isStandalone bs liveBoneIds)
                0 bs k slot [] Hk) as [calls ->].
    + by apply drawBoneRaw_throws.
    + by eexists.
  - intros Hall.
    destruct (drawBoneRaw_resolves o e worldMat isStandalone bs liveBoneIds i (Some bone))
      as (bone' & ps & [= <-] & Hps & Hchunk);
      [by eapply allResolve_lookup|].
    exists (imap (λ j slot,
              callsOf (drawBoneRaw o e worldMat isStandalone bs liveBoneIds j slot)) bs).
    eexists. exists ps.
    split; [|split; [apply length_imap|split; [|split; [exact Hps|split]]]].
    + unfold drawSkeletonRaw.
      rewrite (boneLoop_returns _
                 (λ j slot,
                    callsOf (drawBoneRaw o e worldMat isStandalone bs liveBoneIds j slot))).
      * reflexivity.
      * intros j slot Hj. cbn [Nat.add].
        destruct (drawBoneRaw_resolves o e worldMat isStandalone bs liveBoneIds j slot)
          as (b & ps' & _ & _ & ->); [by eapply allResolve_lookup|done].
    + rewrite list_lookup_imap, Hi. cbn [fmap option_fmap option_map]. rewrite Hchunk.
      reflexivity.
    + intros Hinvalid. cbn [callsOf]. apply Forall_app. split; [apply joint_part_no_line|].
      unfold drawConnectionRaw.
      destruct (RawBone.parentIndex bone) as [| |p|]; try constructor.
      destruct (Hinvalid p eq_refl) as [-> | ->];
        rewrite ?andb_false_r; constructor.
    + intros p Hp Hbones Hge Hlt Hbs Hlive. cbn [callsOf].
      eexists. split; [|apply joint_part_no_line]. f_equal.
      unfold drawConnectionRaw, parentPosRaw. rewrite Hp. cbn [isRootRaw].
      by rewrite Hbones, (nonneg_not_minus_one p Hge), Hge, Hlt, Hlive, Hbs.
Qed.

(** ** De-duplication and order *)

(** [update] emits exactly the calls of its [drawSkeleton] invocations,
    in the order of the invocations. *)
Lemma updateCalls_invocations this am e :
  updateCalls this am e = flat_map (invoke this am e) (invocations this am e).
Proof.
  unfold updateCalls, invocations.
  destruct (negb _); [done|]. destruct (debugRenderer e); [|done].
  rewrite flat_map_app. f_equal.
  - unfold standaloneInvocations.
    induction (skeletonEntityAssetMap e) as [|[entityId assetId] m IH]; [done|].
    cbn. by rewrite IH.
  - unfold meshInvocations.
    induction (skeletonMap e) as [|[entityId ids] m IH]; [done|].
    cbn [flat_map]. rewrite flat_map_app, <- IH. f_equal.
    unfold drawSkeletalMesh. cbn.
    destruct (JsMap_has _ _); [done|].
    destruct (meshAssetOf am e entityId); [|done].
    cbn. by rewrite app_nil_r.
Qed.

Lemma standaloneInvocations_other (m : JsMap string) entityId :
  entityId ∉ m.*1 →
  filter (λ inv, inv_entityId inv = entityId)
         ((λ entry, mkInvocation entry.2 entry.1 true) <$> m) = [].
Proof.
  induction m as [|[k v] m IH]; [done|].
  rewrite !fmap_cons, filter_cons. cbn [fst snd inv_entityId].
  intros [Hne Hk]%not_elem_of_cons.
  destruct (decide (k = entityId)); [congruence|]. by apply IH.
Qed.

Lemma meshInvocations_skip am e entityId :
  entityId ∈ (skeletonEntityAssetMap e).*1 →
  filter (λ inv, inv_entityId inv = entityId) (meshInvocations am e) = [].
Proof.
  intros Hin. unfold meshInvocations.
  induction (skeletonMap e) as [|[k ids] m IH]; [done|].
  cbn [flat_map]. rewrite filter_app, IH, app_nil_r. cbn.
  unfold JsMap_has. case_bool_decide as Hhas; [done|].
  destruct (meshAssetOf am e k); [|done].
  rewrite filter_cons. cbn. destruct (decide (k = entityId)); [congruence|done].
Qed.

(** The entry of a key of a map, and the entries before and after it. *)
Lemma JsMap_split {V} (m : JsMap V) k :
  JsMap_wf m → k ∈ m.*1 →
  ∃ v m1 m2, m = m1 ++ (k, v) :: m2 ∧ (k ∉ m1.*1) ∧ (k ∉ m2.*1).
Proof.
  unfold JsMap_wf. intros Hwf Hin.
  apply list_elem_of_fmap in Hin as ([k' v] & -> & Hin).
  apply list_elem_of_split in Hin as (m1 & m2 & ->).
  exists v, m1, m2. split; [done|].
  rewrite fmap_app, fmap_cons in Hwf. cbn [fst] in Hwf.
  apply NoDup_app in Hwf as (_ & Hdisj & [Hk _]%NoDup_cons).
  split; [|done]. intros Hk1. apply (Hdisj _ Hk1). by left.
Qed.

(** The second loop of [update] draws nothing for the entries whose key
    is a standalone skeleton. *)
Lemma drawSkeletalMesh_skip this am e entityId (m : JsMap (list (option string))) :
  entityId ∈ (skeletonEntityAssetMap e).*1 →
  flat_map (drawSkeletalMesh this am e) m
  = flat_map (drawSkeletalMesh this am e) (filter (λ entry, entry.1 ≠ entityId) m).
Proof.
  intros Hin. induction m as [|[k ids] m IH]; [done|].
  unfold JsMap in *. rewrite filter_cons. cbn [fst flat_map]. rewrite IH.
  destruct (decide (k ≠ entityId)) as [Hne|Heq]; [done|].
  apply dec_stable in Heq as ->.
  unfold drawSkeletalMesh at 1, JsMap_has. by rewrite bool_decide_eq_true_2.
Qed.

(** A skeletal-mesh instance has no origin triad. *)
Lemma drawSkeletalMesh_no_origin this am e (m : JsMap (list (option string))) :
  Forall (λ c, site c ≠ OriginAxis) (flat_map (drawSkeletalMesh this am e) m).
Proof.
  apply Forall_flat_map, Forall_forall. intros [k ids] _. unfold drawSkeletalMesh.
  destruct (JsMap_has _ _); [constructor|].
  destruct (meshAssetOf am e k); [|constructor].
  apply drawSkeleton_Forall; [done|]. intros.
  eapply Forall_impl; [apply drawBone_guarded|].
  intros c [Hg _] Hs. rewrite Hs in Hg. done.
Qed.

(** C7. In an [update] that draws (enabled, with a debug renderer), take
    an entity that is a key of both maps, [assetId] its entry in the
    standalone map, [m1] and [m2] the standalone entries before and after
    it (none of them has its key).
    - If its asset, bone array and world matrix resolve, the calls of the
      update are: those of [m1]; then the drawing of the entity as a
      standalone instance, that is the origin triad of its world matrix
      followed by its bones drawn with the standalone flag; then those of
      [m2]; then those of the skeletal-mesh entries with another key.
      The entity is drawn once, and its entry in the skeletal-mesh map
      adds nothing.
    - If one of the three is missing the entity is not drawn at all: the
      calls are those of [m1], [m2] and the skeletal-mesh entries with
      another key.
    - The calls of all standalone entries come before those of all
      skeletal-mesh entries, and none of the latter belongs to an origin
      triad.
    - [drawSkeleton] is invoked exactly once for the entity, with the
      standalone flag. *)
Theorem drawn_once_as_standalone this am e entityId :
  JsMap_wf (skeletonEntityAssetMap e) →
  enabled (options this) = true →
  is_Some (debugRenderer e) →
  entityId ∈ (skeletonEntityAssetMap e).*1 →
  entityId ∈ (skeletonMap e).*1 →
  ∃ assetId m1 m2,
    skeletonEntityAssetMap e = m1 ++ (entityId, assetId) :: m2 ∧
    (entityId ∉ m1.*1) ∧ (entityId ∉ m2.*1) ∧
    (∀ asset bs worldMat,
       getAsset am assetId = Some asset →
       skeleton asset ≫= bones = Some bs →
       getWorldMatrix e entityId = Some worldMat →
       updateCalls this am e
       = flat_map (drawStandalone this am e) m1
         ++ (originTriad worldMat
             ++ concat (imap (drawBone (options this) e worldMat true bs
                                (JsMap_get (skeletonMap e) entityId)) bs))
         ++ flat_map (drawStandalone this am e) m2
         ++ flat_map (drawSkeletalMesh this am e)
              (filter (λ entry, entry.1 ≠ entityId) (skeletonMap e))) ∧
    (getAsset am assetId = None ∨
     (∃ asset, getAsset am assetId = Some asset ∧ skeleton asset ≫= bones = None) ∨
     getWorldMatrix e entityId = None →
       updateCalls this am e
       = flat_map (drawStandalone this am e) m1
         ++ flat_map (drawStandalone this am e) m2
         ++ flat_map (drawSkeletalMesh this am e)
              (filter (λ entry, entry.1 ≠ entityId) (skeletonMap e))) ∧
    updateCalls this am e
    = flat_map (drawStandalone this am e) (skeletonEntityAssetMap e)
      ++ flat_map (drawSkeletalMesh this am e) (skeletonMap e) ∧
    Forall (λ c, site c ≠ OriginAxis)
           (flat_map (drawSkeletalMesh this am e) (skeletonMap e)) ∧
    filter (λ inv, inv_entityId inv = entityId) (invocations this am e)
    = [mkInvocation assetId entityId true] ∧
    invocations this am e = standaloneInvocations e ++ meshInvocations am e ∧
    Forall (λ inv, inv_isStandalone inv = true) (standaloneInvocations e) ∧
    Forall (λ inv, inv_isStandalone inv = false) (meshInvocations am e) ∧
    updateCalls this am e
    = flat_map (invoke this am e) (standaloneInvocations e)
      ++ flat_map (invoke this am e) (meshInvocations am e).
Proof.
  intros Hwf Hen [debug Hdbg] Hsa Hmesh.
  destruct (JsMap_split _ _ Hwf Hsa) as (assetId & m1 & m2 & Hsplit & Hm1 & Hm2).
  assert (invocations this am e = standaloneInvocations e ++ meshInvocations am e)
    as Hinv by (unfold invocations; by rewrite Hen, Hdbg).
  assert (updateCalls this am e
          = flat_map (drawStandalone this am e) (skeletonEntityAssetMap e)
            ++ flat_map (drawSkeletalMesh this am e) (skeletonMap e)) as Hcalls
    by (unfold updateCalls; by rewrite Hen, Hdbg).
  assert (updateCalls this am e
          = flat_map (drawStandalone this am e) m1
            ++ drawSkeleton this am e assetId entityId true
            ++ flat_map (drawStandalone this am e) m2
            ++ flat_map (drawSkeletalMesh this am e)
                 (filter (λ entry, entry.1 ≠ entityId) (skeletonMap e))) as Hparts.
  { rewrite Hcalls, (drawSkeletalMesh_skip this am e entityId) by done.
    rewrite Hsplit at 1. rewrite flat_map_app. cbn [flat_map drawStandalone].
    by rewrite <- !app_assoc. }
  exists assetId, m1, m2. do 3 (split; [done|]).
  split; [|split; [|split; [done|split; [|split; [|split; [done|split; [|split]]]]]]].
  - intros asset bs worldMat Hasset Hbs Hwm. rewrite Hparts.
    unfold drawSkeleton at 1. by rewrite Hasset, Hbs, Hwm.
  - intros Hmissing. rewrite Hparts.
    assert (drawSkeleton this am e assetId entityId true = []) as ->; [|done].
    unfold drawSkeleton.
    destruct Hmissing as [->|[(asset & -> & ->)|Hwm]]; [done..|].
    destruct (getAsset am assetId) as [asset|]; [|done].
    destruct (skeleton asset ≫= bones); [|done]. by rewrite Hwm.
  - apply drawSkeletalMesh_no_origin.
  - rewrite Hinv, filter_app, meshInvocations_skip, app_nil_r by done.
    unfold standaloneInvocations. rewrite Hsplit, fmap_app, fmap_cons, filter_app, filter_cons.
    cbn [fst snd inv_entityId].
    rewrite !standaloneInvocations_other by done.
    by rewrite decide_True.
  - unfold standaloneInvocations. apply Forall_fmap, Forall_forall. done.
  - unfold meshInvocations. apply Forall_flat_map, Forall_forall.
    intros [k ids] _. cbn. destruct (JsMap_has _ _); [constructor|].
    destruct (meshAssetOf am e k); repeat constructor.
  - by rewrite updateCalls_invocations, Hinv, flat_map_app.
Qed.

(** ** No hidden state *)

Lemma updateCalls_renderer_irrelevant this am e debug :
  is_Some debug → is_Some (debugRenderer e) →
  updateCalls this am
    {| debugRenderer := debug;
       skeletonEntityAssetMap := skeletonEntityAssetMap e;
       skeletonMap := skeletonMap e;
       ecs := ecs e;
       sceneGraph := sceneGraph e |}
  = updateCalls this am e.
Proof.
  intros [d' ->] [d Hd]. destruct e as [dbg sm skm ec sg]. cbn in *. subst dbg.
  reflexivity.
Qed.

(** C9. [update] leaves the tool and every part of the engine other than
    the renderer's buffer as they were, and appends its calls to the
    buffer; a second [update] on the resulting state issues the same
    sequence of calls as the first. *)
Theorem update_repeatable this am e :
  (update this am e).1 = this ∧
  skeletonEntityAssetMap (update this am e).2 = skeletonEntityAssetMap e ∧
  skeletonMap (update this am e).2 = skeletonMap e ∧
  ecs (update this am e).2 = ecs e ∧
  sceneGraph (update this am e).2 = sceneGraph e ∧
  debugRenderer (update this am e).2
    = (λ debug, debug ++ updateCalls this am e) <$> debugRenderer e ∧
  updateCalls (update this am e).1 am (update this am e).2 = updateCalls this am e ∧
  debugRenderer (update (update this am e).1 am (update this am e).2).2
    = (λ debug, (debug ++ updateCalls this am e) ++ updateCalls this am e)
        <$> debugRenderer e.
Proof.
  assert (updateCalls (update this am e).1 am (update this am e).2
          = updateCalls this am e) as Hsame.
  { unfold update. cbn [fst snd].
    destruct (debugRenderer e) as [d|] eqn:Hd.
    - apply updateCalls_renderer_irrelevant; rewrite ?Hd; eauto.
    - unfold updateCalls. cbn. rewrite Hd. by destruct (negb _). }
  repeat split; try done.
  unfold update at 1. cbn [snd debugRenderer]. rewrite Hsame.
  unfold update. cbn. by destruct (debugRenderer e).
Qed.

(** ** Bind-pose fallback *)

Lemma liveWorldMatrix_None e liveBoneIds k :
  liveWorldMatrix e liveBoneIds k = None ↔
  liveBoneIds = None ∨
  ∃ ids, liveBoneIds = Some ids ∧
    (ids !! k = None ∨ ids !! k = Some None ∨ ids !! k = Some (Some "") ∨
     ∃ liveBoneId, ids !! k = Some (Some liveBoneId) ∧
                   getWorldMatrix e liveBoneId = None).
Proof.
  unfold liveWorldMatrix. destruct liveBoneIds as [ids|]; [|by split; [left|]].
  split.
  - intros H. right. exists ids. split; [done|].
    destruct (ids !! k) as [[liveBoneId|]|]; [|by right; left|by left].
    case_bool_decide as Hid; [subst; by right; right; left|].
    right; right; right. by exists liveBoneId.
  - intros [|(ids' & [= <-] & [->|[->|[->|(liveBoneId & -> & Hwm)]]])]; try done.
    by case_bool_decide.
Qed.

(** Under the identity matrix [transform] returns its argument, up to the
    sign of a zero component, when the components are finite. *)
Lemma transform_identity x y z :
  is_finite x = true → is_finite y = true → is_finite z = true →
  sameNumber (Vec3.x (transform identity x y z)) x ∧
  sameNumber (Vec3.y (transform identity x y z)) y ∧
  sameNumber (Vec3.z (transform identity x y z)) z.
Proof.
  intros Hx Hy Hz. unfold transform, identity, mat_at. cbn [nth Vec3.x Vec3.y Vec3.z].
  rewrite !mul_one_l.
  pose proof (mul_zero_l x Hx) as Zx. pose proof (mul_zero_l y Hy) as Zy.
  pose proof (mul_zero_l z Hz) as Zz.
  repeat split.
  - do 2 (apply sameNumber_add_zero; [|done..]). by apply add_zero_r.
  - do 2 (apply sameNumber_add_zero; [|done..]). by apply add_zero_l.
  - apply sameNumber_add_zero; [|done..]. apply add_zero_l; [done|]. by apply add_zeros.
Qed.

(** Adding a zero changes no number, up to the sign of a zero. *)
Lemma add_zero_r_any a z : is_zero z = true → sameNumber (a + z)%float a.
Proof.
  intros Hz. pose proof Hz as Hz'. apply is_zero_spec in Hz'.
  destruct (Prim2SF a) as [b|b| |b m e] eqn:Ea.
  - right. split; [|by apply is_zero_spec; rewrite Ea].
    apply is_zero_spec. rewrite add_spec, Ea.
    destruct (Prim2SF z) as [c| | |]; try done. by destruct b, c.
  - left. apply Prim2SF_inj. rewrite add_spec, Ea. by destruct (Prim2SF z), b.
  - left. apply Prim2SF_inj. by rewrite add_spec, Ea.
  - left. apply Prim2SF_inj. rewrite add_spec, Ea. by destruct (Prim2SF z).
Qed.

Lemma add_zero_l_any a z : is_zero z = true → sameNumber (z + a)%float a.
Proof.
  intros Hz. pose proof Hz as Hz'. apply is_zero_spec in Hz'.
  destruct (Prim2SF a) as [b|b| |b m e] eqn:Ea.
  - right. split; [|by apply is_zero_spec; rewrite Ea].
    apply is_zero_spec. rewrite add_spec, Ea.
    destruct (Prim2SF z) as [c| | |]; try done. by destruct b, c.
  - left. apply Prim2SF_inj. rewrite add_spec, Ea. by destruct (Prim2SF z).
  - left. apply Prim2SF_inj. rewrite add_spec, Ea. by destruct (Prim2SF z).
  - left. apply Prim2SF_inj. rewrite add_spec, Ea. by destruct (Prim2SF z).
Qed.

Lemma sameNumber_add_zero_any a b z :
  sameNumber a b → is_zero z = true → sameNumber (a + z)%float b.
Proof.
  intros [->|[Ha Hb]] Hz; [by apply add_zero_r_any|].
  right. split; [by apply add_zeros|done].
Qed.

(** Adding the same number to both sides keeps [sameNumber]. *)
Lemma sameNumber_add_r a b t :
  sameNumber a b → sameNumber (a + t)%float (b + t)%float.
Proof.
  intros [->|[Ha Hb]]; [by left|].
  pose proof Ha as Ha'. pose proof Hb as Hb'.
  apply is_zero_spec in Ha', Hb'.
  destruct (Prim2SF t) as [c|c| |c m e] eqn:Et.
  - right. split; apply add_zeros; try done; by apply is_zero_spec; rewrite Et.
  - left. apply Prim2SF_inj. rewrite !add_spec, Et.
    by destruct (Prim2SF a), (Prim2SF b).
  - left. apply Prim2SF_inj. rewrite !add_spec, Et.
    by destruct (Prim2SF a), (Prim2SF b).
  - left. apply Prim2SF_inj. rewrite !add_spec, Et.
    by destruct (Prim2SF a), (Prim2SF b).
Qed.

(** What the two helpers compute under a uniform scale and a translation,
    on finite arguments: [k * v + t] and [k * v]. *)
Lemma transform_scaleTranslate k tx ty tz x y z :
  is_finite x = true → is_finite y = true → is_finite z = true →
  sameVec (transform (scaleTranslate k tx ty tz) x y z)
          (Vec3.mk (k * x + tx) (k * y + ty) (k * z + tz)).
Proof.
  intros Hx Hy Hz. unfold transform, scaleTranslate, mat_at, sameVec.
  cbn [nth Vec3.x Vec3.y Vec3.z].
  pose proof (mul_zero_l x Hx) as Zx. pose proof (mul_zero_l y Hy) as Zy.
  pose proof (mul_zero_l z Hz) as Zz.
  repeat split; apply sameNumber_add_r.
  - do 2 (apply sameNumber_add_zero_any; [|done]). by left.
  - apply sameNumber_add_zero_any; [|done]. by apply add_zero_l_any.
  - apply add_zero_l_any. by apply add_zeros.
Qed.

Lemma rotate_scaleTranslate k tx ty tz x y z :
  is_finite x = true → is_finite y = true → is_finite z = true →
  sameVec (rotate (scaleTranslate k tx ty tz) x y z)
          (Vec3.mk (k * x) (k * y) (k * z)).
Proof.
  intros Hx Hy Hz. unfold rotate, scaleTranslate, mat_at, sameVec.
  cbn [nth Vec3.x Vec3.y Vec3.z].
  pose proof (mul_zero_l x Hx) as Zx. pose proof (mul_zero_l y Hy) as Zy.
  pose proof (mul_zero_l z Hz) as Zz.
  repeat split.
  - do 2 (apply sameNumber_add_zero_any; [|done]). by left.
  - apply sameNumber_add_zero_any; [|done]. by apply add_zero_l_any.
  - apply add_zero_l_any. by apply add_zeros.
Qed.

(** C2. A bone without a usable live matrix is placed by its bind pose
    [b] and the world matrix [w] of the instance.
    - The position is the full affine image of the bind-pose translation:
      [w[0]*b[12] + w[4]*b[13] + w[8]*b[14] + w[12]] and likewise for the
      second and third rows of [w].
    - Each axis is the image of a bind-pose rotation column under the
      rotation-and-scale part of [w] alone (no translation added), and
      nothing is divided by a length.
    - Under the identity world matrix the position is the bind-pose
      translation itself.
    - Under a uniform scale [k] followed by a translation [t] the position
      is [k * translation + t] and each axis is [k] times its bind-pose
      column: the scale of the world matrix stays in the axes.
    The last two hold for finite bind-pose entries, a zero component
    possibly changing sign. *)
Theorem bind_pose_fallback e worldMat liveBoneIds i bone b :
  liveWorldMatrix e liveBoneIds i = None →
  Bone.bindPose bone = b →
  pos (resolvePose e worldMat liveBoneIds i bone)
  = Vec3.mk
      (worldMat.[0] * b.[12] + worldMat.[4] * b.[13] + worldMat.[8] * b.[14] + worldMat.[12])
      (worldMat.[1] * b.[12] + worldMat.[5] * b.[13] + worldMat.[9] * b.[14] + worldMat.[13])
      (worldMat.[2] * b.[12] + worldMat.[6] * b.[13] + worldMat.[10] * b.[14] + worldMat.[14])
  ∧ rx (resolvePose e worldMat liveBoneIds i bone)
  = Vec3.mk
      (worldMat.[0] * b.[0] + worldMat.[4] * b.[1] + worldMat.[8] * b.[2])
      (worldMat.[1] * b.[0] + worldMat.[5] * b.[1] + worldMat.[9] * b.[2])
      (worldMat.[2] * b.[0] + worldMat.[6] * b.[1] + worldMat.[10] * b.[2])
  ∧ ry (resolvePose e worldMat liveBoneIds i bone)
  = Vec3.mk
      (worldMat.[0] * b.[4] + worldMat.[4] * b.[5] + worldMat.[8] * b.[6])
      (worldMat.[1] * b.[4] + worldMat.[5] * b.[5] + worldMat.[9] * b.[6])
      (worldMat.[2] * b.[4] + worldMat.[6] * b.[5] + worldMat.[10] * b.[6])
  ∧ rz (resolvePose e worldMat liveBoneIds i bone)
  = Vec3.mk
      (worldMat.[0] * b.[8] + worldMat.[4] * b.[9] + worldMat.[8] * b.[10])
      (worldMat.[1] * b.[8] + worldMat.[5] * b.[9] + worldMat.[9] * b.[10])
      (worldMat.[2] * b.[8] + worldMat.[6] * b.[9] + worldMat.[10] * b.[10])
  ∧ (worldMat = identity →
     is_finite b.[12] = true → is_finite b.[13] = true → is_finite b.[14] = true →
     sameVec (pos (resolvePose e worldMat liveBoneIds i bone))
             (Vec3.mk b.[12] b.[13] b.[14]))
  ∧ (∀ k tx ty tz,
       worldMat = scaleTranslate k tx ty tz →
       (is_finite b.[12] = true → is_finite b.[13] = true → is_finite b.[14] = true →
        sameVec (pos (resolvePose e worldMat liveBoneIds i bone))
                (Vec3.mk (k * b.[12] + tx) (k * b.[13] + ty) (k * b.[14] + tz))) ∧
       (is_finite b.[0] = true → is_finite b.[1] = true → is_finite b.[2] = true →
        sameVec (rx (resolvePose e worldMat liveBoneIds i bone))
                (Vec3.mk (k * b.[0]) (k * b.[1]) (k * b.[2]))) ∧
       (is_finite b.[4] = true → is_finite b.[5] = true → is_finite b.[6] = true →
        sameVec (ry (resolvePose e worldMat liveBoneIds i bone))
                (Vec3.mk (k * b.[4]) (k * b.[5]) (k * b.[6]))) ∧
       (is_finite b.[8] = true → is_finite b.[9] = true → is_finite b.[10] = true →
        sameVec (rz (resolvePose e worldMat liveBoneIds i bone))
                (Vec3.mk (k * b.[8]) (k * b.[9]) (k * b.[10])))).
Proof.
  intros Hlive <-. unfold resolvePose. rewrite Hlive.
  do 4 (split; [reflexivity|]). split.
  - intros -> Hx Hy Hz. cbn [pos bindPosePose]. by apply transform_identity.
  - intros k tx ty tz ->. cbn [pos rx ry rz bindPosePose].
    repeat split; intros; first [by apply transform_scaleTranslate
                                |by apply rotate_scaleTranslate].
Qed.

(** ** Live axes *)

Lemma norm3_zero_not_nan a b c :
  (norm3 a b c =? 0)%float = true →
  is_nan a = false ∧ is_nan b = false ∧ is_nan c = false.
Proof.
  intros Hlen. unfold norm3, sq in Hlen.
  repeat split; apply not_true_iff_false; intros Hnan.
  - rewrite eqb_nan in Hlen; [done|].
    by apply sqrt_nan, add_nan_l, add_nan_l, mul_nan.
  - rewrite eqb_nan in Hlen; [done|].
    by apply sqrt_nan, add_nan_l, add_nan_r, mul_nan.
  - rewrite eqb_nan in Hlen; [done|].
    by apply sqrt_nan, add_nan_r, mul_nan.
Qed.

Lemma orOne_zero v : (v =? 0)%float = true → orOne v = 1%float.
Proof. intros Hv. unfold orOne, truthy. by rewrite Hv. Qed.

(** C3, as the code has it.  On the live path each axis is the rotation
    column divided, component by component, by [len || 1], [len] being the
    column's length.  When [len] is a non-zero number the divisor is
    [len].  When [len] is 0 the divisor is 1: the axis is the column
    itself, unchanged, and none of its components is NaN. *)
Theorem live_axes e worldMat liveBoneIds i bone liveWm :
  liveWorldMatrix e liveBoneIds i = Some liveWm →
  rx (resolvePose e worldMat liveBoneIds i bone) = normalizedColumn liveWm 0 ∧
  ry (resolvePose e worldMat liveBoneIds i bone) = normalizedColumn liveWm 4 ∧
  rz (resolvePose e worldMat liveBoneIds i bone) = normalizedColumn liveWm 8 ∧
  ∀ k,
    (truthy (norm3 liveWm.[k] liveWm.[k+1] liveWm.[k+2]) = true →
     normalizedColumn liveWm k
     = Vec3.mk (liveWm.[k] / norm3 liveWm.[k] liveWm.[k+1] liveWm.[k+2])
               (liveWm.[k+1] / norm3 liveWm.[k] liveWm.[k+1] liveWm.[k+2])
               (liveWm.[k+2] / norm3 liveWm.[k] liveWm.[k+1] liveWm.[k+2])) ∧
    ((norm3 liveWm.[k] liveWm.[k+1] liveWm.[k+2] =? 0)%float = true →
     normalizedColumn liveWm k = Vec3.mk liveWm.[k] liveWm.[k+1] liveWm.[k+2] ∧
     is_nan (Vec3.x (normalizedColumn liveWm k)) = false ∧
     is_nan (Vec3.y (normalizedColumn liveWm k)) = false ∧
     is_nan (Vec3.z (normalizedColumn liveWm k)) = false).
Proof.
  intros Hlive. unfold resolvePose. rewrite Hlive.
  do 3 (split; [reflexivity|]).
  intros k. unfold normalizedColumn, columnLength. split.
  - intros Hlen. unfold orOne. by rewrite Hlen.
  - intros Hzero. rewrite orOne_zero, !div_one_r by done.
    split; [reflexivity|]. by apply norm3_zero_not_nan.
Qed.
End Properties.

(** * The theorems at work on the running example *)

Section Witnesses.
Import Example.

Lemma live_position_wins_witness :
  pos (resolvePose engine (translation 10 0 0)
         (JsMap_get (skeletonMap engine) "S") 0 hip)
  = Vec3.mk 10 5 0.
Proof.
  apply (live_position_wins engine "S" (translation 10 0 0)
           [Some "S.hip"; None; Some "S.head"] 0 "S.hip" (translation 10 5 0) hip).
  - reflexivity.
  - reflexivity.
  - discriminate.
  - vm_compute. reflexivity.
Defined.

Lemma bind_pose_fallback_witness :
  pos (resolvePose engine turned (JsMap_get (skeletonMap engine) "S") 1 spine)
  = Vec3.mk 6 0 0 ∧
  ry (resolvePose engine turned (JsMap_get (skeletonMap engine) "S") 1 spine)
  = Vec3.mk (-2) 0 0 ∧
  sameVec
    (pos (resolvePose engine identity (JsMap_get (skeletonMap engine) "S") 1 spine))
    (Vec3.mk 0 2 0) ∧
  sameVec
    (pos (resolvePose engine (scaleTranslate 3 10 0 0)
            (JsMap_get (skeletonMap engine) "S") 1 spine))
    (Vec3.mk (3 * 0 + 10) (3 * 2 + 0) (3 * 0 + 0)) ∧
  sameVec
    (ry (resolvePose engine (scaleTranslate 3 10 0 0)
           (JsMap_get (skeletonMap engine) "S") 1 spine))
    (Vec3.mk (3 * 0) (3 * 1) (3 * 0)).
Proof.
  pose proof (bind_pose_fallback engine turned
                (JsMap_get (skeletonMap engine) "S") 1 spine (translation 0 2 0)
                eq_refl eq_refl) as (Hpos & _ & Hry & _).
  pose proof (bind_pose_fallback engine identity
                (JsMap_get (skeletonMap engine) "S") 1 spine (translation 0 2 0)
                eq_refl eq_refl) as (_ & _ & _ & _ & Hid & _).
  pose proof (bind_pose_fallback engine (scaleTranslate 3 10 0 0)
                (JsMap_get (skeletonMap engine) "S") 1 spine (translation 0 2 0)
                eq_refl eq_refl) as (_ & _ & _ & _ & _ & Hst).
  destruct (Hst 3 10 0 0 eq_refl)%float as (Hsp & _ & Hsy & _).
  split; [rewrite Hpos; vm_compute; reflexivity|].
  split; [rewrite Hry; vm_compute; reflexivity|].
  split; [apply Hid; reflexivity|].
  split; [apply Hsp; reflexivity|apply Hsy; reflexivity].
Defined.

(** The fallback axes keep the scale of the world matrix: under a uniform
    scale of 2 the X axis of an unrotated bone has length 2. *)
Example fallback_axes_keep_scale :
  rx (resolvePose engine (scaling 2) None 0 hip) = Vec3.mk 2 0 0.
Proof. vm_compute. reflexivity. Qed.

Lemma live_axes_witness :
  rx (resolvePose engine (translation 10 0 0)
        (JsMap_get (skeletonMap engine) "S") 2 head)
  = Vec3.mk 0 0 0 ∧
  rz (resolvePose engine (translation 10 0 0)
        (JsMap_get (skeletonMap engine) "S") 2 head)
  = Vec3.mk 0 0 1.
Proof.
  destruct (live_axes engine (translation 10 0 0)
              (JsMap_get (skeletonMap engine) "S") 2 head flatX)
    as (Hx & _ & Hz & Hcol).
  - vm_compute. reflexivity.
  - split.
    + rewrite Hx. apply (Hcol 0%nat). vm_compute. reflexivity.
    + rewrite Hz. vm_compute. reflexivity.
Defined.

(** C3 as stated fails: the X column of the live matrix of bone 2 of "S"
    has length 0, and the resolved X axis is the zero vector, not the unit
    X axis. *)
Lemma zero_column_is_not_identity_axis :
  liveWorldMatrix engine (JsMap_get (skeletonMap engine) "S") 2 = Some flatX ∧
  norm3 flatX.[0] flatX.[1] flatX.[2] = 0%float ∧
  rx (resolvePose engine (translation 10 0 0)
        (JsMap_get (skeletonMap engine) "S") 2 head) = Vec3.mk 0 0 0 ∧
  rx (resolvePose engine (translation 10 0 0)
        (JsMap_get (skeletonMap engine) "S") 2 head) ≠ Vec3.mk 1 0 0.
Proof.
  repeat split; try (vm_compute; reflexivity).
  intros H. apply (f_equal (λ v, (Vec3.x v =? 1)%float)) in H.
  vm_compute in H. discriminate.
Qed.

Lemma option_gates_witness :
  Forall (λ c, site c ≠ BoneLine) (updateCalls quiet am engine) ∧
  Forall (λ c, isPoint c = false ∧ site c ≠ JointPoint ∧ site c ≠ RootSphere)
         (updateCalls quiet am engine) ∧
  updateCalls (setOptions (mkPartial (Some false) None None None None None None None None) tool)
              am engine = [].
Proof.
  split; [|split].
  - apply (option_gates quiet am engine). reflexivity.
  - apply (option_gates quiet am engine). reflexivity.
  - apply (option_gates
             (setOptions (mkPartial (Some false) None None None None None None None None) tool)
             am engine).
    reflexivity.
Defined.

(** The gates are not vacuous: with the default options the same update
    emits bone lines, joint points and sphere segments. *)
Example default_options_draw :
  site <$> filter (λ c, site c = BoneLine ∨ site c = JointPoint)
                  (updateCalls tool am engine)
  = [JointPoint; BoneLine; JointPoint; BoneLine; JointPoint;
     JointPoint; BoneLine; JointPoint; BoneLine; JointPoint] ∧
  length (filter (λ c, site c = RootSphere) (updateCalls tool am engine)) = 72.
Proof. split; vm_compute; reflexivity. Qed.

Lemma root_classification_witness :
  Forall (λ c, site c = RootAxis ∨ site c = RootSphere)
         (drawBone (options tool) engine (translation 10 0 0) true [hip; odd] None 0 hip) ∧
  (∃ c, c ∈ drawBone (options tool) engine (translation 10 0 0) true [hip; odd] None 0 hip
        ∧ site c = RootAxis) ∧
  Forall (λ c, site c ≠ RootAxis ∧ site c ≠ RootSphere)
         (drawBone (options tool) engine (translation 10 0 0) true [hip; odd] None 1 odd) ∧
  Forall (λ c, site c ≠ BoneLine)
         (drawBone (options tool) engine (translation 10 0 0) true [hip; odd] None 1 odd).
Proof.
  pose proof (root_classification (options tool) engine (translation 10 0 0) true
                [hip; odd] None 0 hip) as (_ & Hroot & _ & _).
  pose proof (root_classification (options tool) engine (translation 10 0 0) true
                [hip; odd] None 1 odd) as (_ & _ & Hjoint & Hneg).
  destruct (Hroot eq_refl) as (Honly & Haxis & _).
  split; [exact Honly|]. split; [exact (Haxis eq_refl)|].
  split; [exact (Hjoint eq_refl)|].
  apply (Hneg (-2)%Z); [reflexivity|lia].
Defined.

(** C5 as stated fails: a bone whose [parentIndex] is -2 has a negative
    parent index and is not a root; it is drawn as an ordinary joint. *)
Lemma negative_parent_is_not_root :
  Bone.parentIndex odd = Some (-2)%Z ∧
  (-2 < 0)%Z ∧
  isRoot (Bone.parentIndex odd) = false ∧
  site <$> drawBone (options tool) engine (translation 10 0 0) true [hip; odd] None 1 odd
  = [JointPoint].
Proof. repeat split; try lia; vm_compute; reflexivity. Qed.

Lemma invalid_parent_index_witness :
  ∃ chunks before,
    drawSkeletonRaw (options tool) engine (translation 10 0 0) false crooked None
    = Returned (concat chunks) ∧
    length chunks = 3%nat ∧
    chunks !! 2%nat
    = Some (before ++ [mkCall BoneLine
                         (drawLine (Vec3.mk 0 0 0) (Vec3.mk 10 4 0)
                                   (Color.mk 0.5 0.5 0.5))]) ∧
    Forall (λ c, site c ≠ BoneLine) before.
Proof.
  destruct (invalid_parent_index (options tool) engine (translation 10 0 0) false
              crooked None 2 limb eq_refl) as [_ Hreturns].
  destruct (Hreturns eq_refl) as (chunks & chunk & ps & Hcalls & Hlen & Hchunk & Hps & _ & Hline).
  destruct (Hline 1.5%float eq_refl eq_refl eq_refl eq_refl eq_refl eq_refl)
    as (before & -> & Hbefore).
  vm_compute in Hps. injection Hps as <-.
  exists chunks, before. done.
Defined.

(** The update of the example skeleton with the limb: two bone lines,
    the second one from the point [(0, 0, 0)]. *)
Example fractional_parent_example :
  filter (λ c, site c = BoneLine)
         (callsOf (drawSkeletonRaw (options tool) engine (translation 10 0 0) false
                     crooked None))
  = [ mkCall BoneLine (drawLine (Vec3.mk 10 1 0) (Vec3.mk 10 2 0) (Color.mk 0.5 0.5 0.5));
      mkCall BoneLine (drawLine (Vec3.mk 0 0 0) (Vec3.mk 10 4 0) (Color.mk 0.5 0.5 0.5)) ].
Proof. vm_compute. reflexivity. Qed.

(** A bone without bind pose and without live matrix ends the loop: the
    calls of the bones before it are all there is. *)
Example missing_bind_pose_example :
  drawSkeletonRaw (options tool) engine (translation 10 0 0) false broken None
  = Threw (callsOf (drawBoneRaw (options tool) engine (translation 10 0 0) false
                      broken None 0 (rawOf hip))).
Proof. vm_compute. reflexivity. Qed.

(** On the bones of the example rig, which have the declared shape, the
    two readings of the loop issue the same calls. *)
Example raw_agrees_on_rig :
  drawSkeletonRaw (options tool) engine (translation 10 0 0) true
    (rawOf <$> [hip; spine; head; stray]) (JsMap_get (skeletonMap engine) "S")
  = Returned (drawSkeleton tool am engine "rig" "S" true) ∧
  drawSkeletonRaw (options tool) engine (scaling 2) false
    (rawOf <$> [hip; odd]) (JsMap_get (skeletonMap engine) "M")
  = Returned
      (concat (imap (drawBone (options tool) engine (scaling 2) false [hip; odd]
                       (JsMap_get (skeletonMap engine) "M")) [hip; odd])).
Proof. split; vm_compute; reflexivity. Qed.

Lemma drawn_once_as_standalone_witness :
  updateCalls tool am engine
  = originTriad (translation 10 0 0)
    ++ concat (imap (drawBone (options tool) engine (translation 10 0 0) true
                       [hip; spine; head; stray]
                       (Some [Some "S.hip"; None; Some "S.head"]))
                    [hip; spine; head; stray])
    ++ drawSkeleton tool am engine "rig" "M" false ∧
  filter (λ inv, inv_entityId inv = "S") (invocations tool am engine)
  = [mkInvocation "rig" "S" true].
Proof.
  destruct (drawn_once_as_standalone tool am engine "S")
    as (assetId & m1 & m2 & Hsplit & Hm1 & Hm2 & Hdrawn & _ & _ & _ & Hcount & _).
  - unfold JsMap_wf. apply (bool_decide_unpack _). vm_compute. exact I.
  - reflexivity.
  - eexists. reflexivity.
  - apply (bool_decide_unpack _). vm_compute. exact I.
  - apply (bool_decide_unpack _). vm_compute. exact I.
  - assert (m1 = [] ∧ assetId = "rig" ∧ m2 = [("G", "rig")]) as (-> & -> & ->).
    { destruct m1 as [|[k v] m1]; cbn in Hsplit.
      - by injection Hsplit as <- <-.
      - exfalso. apply Hm1. injection Hsplit as <- _ _. by left. }
    split; [|exact Hcount].
    rewrite (Hdrawn rig [hip; spine; head; stray] (translation 10 0 0)
               eq_refl eq_refl eq_refl).
    vm_compute. reflexivity.
Defined.

(** An entity can be a key of both maps and yet not be drawn: "G" has
    no world matrix, and the calls of the update are those of "S" and
    "M" alone. *)
Lemma unresolved_entity_is_not_drawn :
  JsMap_wf (skeletonEntityAssetMap engine) ∧
  enabled (options tool) = true ∧
  is_Some (debugRenderer engine) ∧
  "G" ∈ (skeletonEntityAssetMap engine).*1 ∧
  "G" ∈ (skeletonMap engine).*1 ∧
  drawSkeleton tool am engine "rig" "G" true = [] ∧
  updateCalls tool am engine
  = drawSkeleton tool am engine "rig" "S" true
    ++ drawSkeleton tool am engine "rig" "M" false ∧
  drawSkeleton tool am engine "rig" "S" true ≠ [] ∧
  updateCalls tool am engine
  = updateCalls tool am
      {| debugRenderer := debugRenderer engine;
         skeletonEntityAssetMap := [("S", "rig")];
         skeletonMap := [("S", [Some "S.hip"; None; Some "S.head"]);
                         ("M", [Some "M.hip"])];
         ecs := ecs engine;
         sceneGraph := sceneGraph engine |}.
Proof.
  split; [unfold JsMap_wf; apply (bool_decide_unpack _); vm_compute; exact I|].
  split; [reflexivity|].
  split; [by eexists|].
  split; [apply (bool_decide_unpack _); vm_compute; exact I|].
  split; [apply (bool_decide_unpack _); vm_compute; exact I|].
  split; [vm_compute; reflexivity|].
  split; [vm_compute; reflexivity|].
  split; [vm_compute; discriminate|].
  vm_compute. reflexivity.
Qed.

(** What the example's update invokes: "S" once, as standalone, although
    it is a key of both maps; "M" as a skeletal mesh, after the standalone
    entries. *)
Example invocations_of_example :
  invocations tool am engine
  = [mkInvocation "rig" "S" true; mkInvocation "rig" "G" true;
     mkInvocation "rig" "M" false].
Proof. vm_compute. reflexivity. Qed.

Lemma standalone_origin_triad_witness :
  ∃ before after,
    updateCalls tool am engine = before ++ originTriad (translation 10 0 0) ++ after.
Proof.
  apply (standalone_origin_triad tool am engine [] "S" "rig" rig
           [hip; spine; head; stray] (translation 10 0 0)).
  - reflexivity.
  - reflexivity.
  - apply (bool_decide_unpack _). vm_compute. exact I.
  - vm_compute. reflexivity.
  - reflexivity.
  - vm_compute. reflexivity.
Defined.

Lemma no_instance_matrix_no_calls_witness :
  liveWorldMatrix engine (JsMap_get (skeletonMap engine) "G") 0
    = Some (translation 10 5 0) ∧
  drawSkeleton tool am engine "rig" "G" true = [].
Proof.
  split.
  - vm_compute. reflexivity.
  - apply (no_instance_matrix_no_calls tool am engine "rig" "G" true).
    vm_compute. reflexivity.
Defined.
End Witnesses.

(** * Further properties of the tool *)

Section Further.
Context {M : Math}.

(** ** Options *)

(** X1. [setOptions] composes like object spread: two successive calls
    are one call with the second partial laid over the first, setting the
    same partial twice is setting it once, and the empty partial changes
    nothing. *)
Theorem setOptions_compose p q this :
  setOptions q (setOptions p this) = setOptions (overridePartial p q) this ∧
  setOptions p (setOptions p this) = setOptions p this ∧
  setOptions emptyPartial this = this.
Proof.
  destruct this as [o], o, p as [a1 a2 a3 a4 a5 a6 a7 a8 a9],
    q as [b1 b2 b3 b4 b5 b6 b7 b8 b9].
  unfold setOptions, overridePartial. cbn.
  split; [|split; [|reflexivity]].
  - destruct b1, b2, b3, b4, b5, b6, b7, b8, b9; reflexivity.
  - destruct a1, a2, a3, a4, a5, a6, a7, a8, a9; reflexivity.
Qed.

(** ** The bone connection *)

Lemma parentPos_resolved e worldMat bs liveBoneIds p parent :
  bs !! p = Some parent →
  parentPos e worldMat bs liveBoneIds p
  = pos (resolvePose e worldMat liveBoneIds p parent).
Proof.
  intros Hp. unfold parentPos, resolvePose.
  destruct (liveWorldMatrix e liveBoneIds p); [reflexivity|].
  by rewrite Hp.
Qed.

(** X2. With [drawBones] on, a bone whose parent index [p] is within the
    bone array draws exactly one connection: a segment in [boneColor] from
    the resolved position of bone [p] to its own resolved position.  The
    parent end is resolved like any bone (live matrix first, bind pose
    otherwise). *)
Theorem connection_joins_joints o e worldMat isStandalone bs liveBoneIds i bone p parent :
  drawBones o = true →
  Bone.parentIndex bone = Some p →
  (0 ≤ p < Z.of_nat (length bs))%Z →
  bs !! Z.to_nat p = Some parent →
  filter (λ c, site c = BoneLine)
         (drawBone o e worldMat isStandalone bs liveBoneIds i bone)
  = [mkCall BoneLine
       (drawLine (pos (resolvePose e worldMat liveBoneIds (Z.to_nat p) parent))
                 (pos (resolvePose e worldMat liveBoneIds i bone))
                 (boneColor o))].
Proof.
  intros Hb Hp Hrange Hparent. unfold drawBone.
  assert (isRoot (Bone.parentIndex bone) = false) as Hroot.
  { rewrite Hp. cbn. apply Z.eqb_neq. lia. }
  rewrite Hroot, !filter_app.
  assert (∀ ps, filter (λ c, site c = BoneLine) (drawJoint o bone ps) = []) as ->.
  { intros ps. unfold drawJoint. by destruct (drawJoints o). }
  assert (∀ ps, filter (λ c, site c = BoneLine) (drawBoneAxes o false ps) = []) as ->.
  { intros ps. unfold drawBoneAxes. by destruct (drawAxes o). }
  unfold drawConnection. rewrite Hp, <- Hp, Hroot, Hb. cbn [negb andb app].
  rewrite (proj2 (Z.leb_le 0 p)), (proj2 (Z.ltb_lt p _)) by lia.
  cbn [andb]. rewrite filter_cons, filter_nil. cbn [site].
  rewrite decide_True by done.
  by rewrite (parentPos_resolved _ _ _ _ _ parent).
Qed.

(** ** The joint dot *)



(** ** The live divisor *)

(** X4. The divisor used to normalise a live rotation column is never
    0, -0 or NaN, whatever the matrix holds. *)
Theorem column_divisor_truthy (m : Mat4) (k : nat) :
  truthy (columnLength m k) = true.
Proof.
  unfold columnLength, orOne.
  destruct (truthy (norm3 m.[k] m.[k+1] m.[k+2])) eqn:Hlen; [exact Hlen|].
  vm_compute. reflexivity.
Qed.

(** ** The wire sphere *)

Lemma circleLoop_chained s next color prev i count :
  chained prev (circleLoop s next color prev i count).
Proof.
  revert prev i. induction count as [|count IH]; intros prev i; cbn; [done|].
  split; [done|]. apply IH.
Qed.

Lemma circleLoop_inPlane coord v s next color prev i count :
  coord prev = v → (∀ theta, coord (next theta) = v) →
  Forall (inPlane coord v) (circleLoop s next color prev i count).
Proof.
  intros Hprev Hnext. revert prev i Hprev.
  induction count as [|count IH]; intros prev i Hprev; cbn; constructor.
  - by split.
  - by apply IH.
Qed.

Lemma circleLoop_segmentOf s next color prev i count :
  Forall (segmentOf s color) (circleLoop s next color prev i count).
Proof.
  revert prev i. induction count as [|count IH]; intros prev i; cbn; constructor.
  - split; [done|]. by eexists _, _.
  - apply IH.
Qed.

(** X5. A wire sphere is three polylines of twelve segments each, all in
    the given colour: the first starts at [center + (radius, 0, 0)] and
    stays in the plane [z = center.z], the second starts at
    [center + (0, radius, 0)] and stays in the plane [x = center.x], the
    third starts at [center + (radius, 0, 0)] and stays in the plane
    [y = center.y].  This holds for any [Math.cos] and [Math.sin]. *)
Theorem wire_sphere_shape s center radius color :
  ∃ xy yz xz,
    drawWireSphere s center radius color = xy ++ yz ++ xz ∧
    length xy = 12%nat ∧ length yz = 12%nat ∧ length xz = 12%nat ∧
    Forall (segmentOf s color) (xy ++ yz ++ xz) ∧
    chained (Vec3.mk (Vec3.x center + radius) (Vec3.y center) (Vec3.z center)) xy ∧
    chained (Vec3.mk (Vec3.x center) (Vec3.y center + radius) (Vec3.z center)) yz ∧
    chained (Vec3.mk (Vec3.x center + radius) (Vec3.y center) (Vec3.z center)) xz ∧
    Forall (inPlane Vec3.z (Vec3.z center)) xy ∧
    Forall (inPlane Vec3.x (Vec3.x center)) yz ∧
    Forall (inPlane Vec3.y (Vec3.y center)) xz.
Proof.
  unfold drawWireSphere. eexists _, _, _. split; [reflexivity|].
  rewrite !circleLoop_length, !Forall_app.
  repeat split; auto using circleLoop_segmentOf, circleLoop_chained;
    by apply circleLoop_inPlane.
Qed.

(** ** When update does nothing *)

(** X6. When the tool is disabled, or the engine has no debug renderer,
    [update] changes nothing at all. *)
Theorem update_noop this am e :
  enabled (options this) = false ∨ debugRenderer e = None →
  update this am e = (this, e).
Proof.
  intros Hoff. unfold update. f_equal. destruct e as [dbg sm skm ec sg]. cbn.
  f_equal. destruct Hoff as [Hoff|Hoff].
  - unfold updateCalls. rewrite Hoff. cbn. destruct dbg; [|done].
    cbn. by rewrite app_nil_r.
  - cbn in Hoff. by subst.
Qed.

(** ** Skeletal-mesh entities *)

(** X7. An entry of the skeleton map produces calls only if its entity
    is not a standalone skeleton, is registered in the component store,
    is active there, and has a mesh type that names a non-empty asset id;
    it is then drawn with that asset, as a non-standalone instance. *)
Theorem skeletal_mesh_gate this am e entityId ids :
  (drawSkeletalMesh this am e (entityId, ids) ≠ []) →
  (entityId ∉ (skeletonEntityAssetMap e).*1) ∧
  ∃ idx meshIntId assetId,
    idToIndex (ecs e) !! entityId = Some idx ∧
    isActive (store (ecs e)) !! idx = Some true ∧
    meshType (store (ecs e)) !! idx = Some meshIntId ∧
    meshIntToUuid am !! meshIntId = Some assetId ∧
    assetId ≠ "" ∧
    drawSkeletalMesh this am e (entityId, ids)
    = drawSkeleton this am e assetId entityId false.
Proof.
  unfold drawSkeletalMesh, JsMap_has, meshAssetOf.
  case_bool_decide as Hsa; [done|]. intros Hcalls. split; [done|].
  destruct (idToIndex (ecs e) !! entityId) as [idx|] eqn:Hidx; [|done].
  destruct (isActive (store (ecs e)) !! idx) as [[|]|] eqn:Hact; [|done|done].
  destruct (meshType (store (ecs e)) !! idx) as [meshIntId|] eqn:Htype; [|done].
  cbn in *.
  destruct (meshIntToUuid am !! meshIntId) as [assetId|] eqn:Hasset; [|done].
  case_bool_decide as Hid; [done|].
  by exists idx, meshIntId, assetId.
Qed.

(** ** Coordinate frames *)

(** X8. A non-standalone instance never gets an origin triad.  With
    [drawAxes] off no per-bone triad is drawn for any instance, and a
    non-standalone instance gets no triad of any kind. *)
Theorem triads_by_instance_kind this am e assetId entityId isStandalone :
  Forall (λ c, site c ≠ OriginAxis)
         (drawSkeleton this am e assetId entityId false) ∧
  (drawAxes (options this) = false →
   Forall (λ c, site c ≠ BoneAxis)
          (drawSkeleton this am e assetId entityId isStandalone) ∧
   Forall (λ c, site c ≠ OriginAxis ∧ site c ≠ RootAxis ∧ site c ≠ BoneAxis)
          (drawSkeleton this am e assetId entityId false)).
Proof.
  split; [|intros Hoff; split].
  - apply drawSkeleton_Forall; [done|]. intros.
    eapply Forall_impl; [apply drawBone_guarded|].
    intros c [Hg _] Hs. rewrite Hs in Hg. done.
  - apply drawSkeleton_Forall; [done|]. intros.
    eapply Forall_impl; [apply drawBone_guarded|].
    intros c [Hg _] Hs. rewrite Hs in Hg. cbn in Hg.
    rewrite Hoff, andb_false_r in Hg. done.
  - apply drawSkeleton_Forall; [done|]. intros.
    eapply Forall_impl; [apply drawBone_guarded|].
    intros c [Hg _]. repeat split; intros Hs; rewrite Hs in Hg; cbn in Hg;
      rewrite ?Hoff, ?andb_false_r in Hg; done.
Qed.

(** ** Styling *)

Lemma drawAxis_styled o s origin xAxis yAxis zAxis scale :
  s = OriginAxis ∨ s = RootAxis ∨ s = BoneAxis →
  Forall (styled o) (drawAxis s origin xAxis yAxis zAxis scale).
Proof.
  intros [ -> | [ -> | -> ] ]; unfold drawAxis, styled, red, green, blue;
    repeat (apply Forall_cons_2; [cbn; auto|]); apply Forall_nil_2.
Qed.

Lemma drawWireSphere_styled o center radius :
  Forall (styled o) (drawWireSphere RootSphere center radius (rootColor o)).
Proof.
  unfold drawWireSphere. rewrite !Forall_app.
  repeat split; (eapply Forall_impl; [apply circleLoop_segmentOf|]);
    intros c [Hs (a & b & Hp)]; unfold styled; by rewrite Hs, Hp.
Qed.

Lemma drawBone_styled o e worldMat isStandalone bs liveBoneIds i bone :
  Forall (styled o) (drawBone o e worldMat isStandalone bs liveBoneIds i bone).
Proof.
  unfold drawBone.
  set (ps := resolvePose e worldMat liveBoneIds i bone). clearbody ps.
  rewrite !Forall_app. repeat split.
  - destruct (isRoot _).
    + unfold drawRoot. apply Forall_app. split.
      * destruct (_ || _); [|constructor]. apply drawAxis_styled. auto.
      * destruct (drawJoints o); [|constructor]. apply drawWireSphere_styled.
    + unfold drawJoint. destruct (drawJoints o); repeat constructor.
  - unfold drawBoneAxes. destruct (_ && _); [|constructor].
    apply drawAxis_styled. auto.
  - unfold drawConnection. destruct (Bone.parentIndex bone); [|constructor].
    destruct (_ && _); repeat constructor.
Qed.

(** X9. Every call of an update is styled by its site: bone connections
    are segments in [boneColor], root sphere segments are in [rootColor],
    joint dots are points with the configured border, and every triad
    segment is pure red, green or blue. *)
Theorem update_styled this am e :
  Forall (styled (options this)) (updateCalls this am e).
Proof.
  apply updateCalls_Forall. intros assetId entityId isStandalone.
  unfold drawSkeleton.
  destruct (getAsset am assetId) as [asset|]; [|constructor].
  destruct (skeleton asset ≫= bones) as [bs|]; [|constructor].
  destruct (getWorldMatrix e entityId) as [worldMat|]; [|constructor].
  apply Forall_app. split.
  - destruct isStandalone; [|constructor]. apply drawAxis_styled. auto.
  - apply Forall_concat, Forall_forall. intros chunk Hin.
    apply elem_of_lookup_imap in Hin as (i & bone & -> & _).
    apply drawBone_styled.
Qed.

(** ** Order and number of calls *)

Lemma circleLoop_sites s next color prev i count :
  site <$> circleLoop s next color prev i count = replicate count s.
Proof.
  revert prev i. induction count as [|count IH]; intros prev i; cbn; [done|].
  by rewrite IH.
Qed.

Lemma drawWireSphere_sites s center radius color :
  site <$> drawWireSphere s center radius color = replicate 36 s.
Proof.
  unfold drawWireSphere. by rewrite !fmap_app, !circleLoop_sites.
Qed.

Lemma drawBone_sites o e worldMat isStandalone bs liveBoneIds i bone :
  site <$> drawBone o e worldMat isStandalone bs liveBoneIds i bone
  = boneSites o isStandalone bs bone.
Proof.
  unfold drawBone, boneSites, siteGuard.
  set (ps := resolvePose e worldMat liveBoneIds i bone). clearbody ps.
  rewrite !fmap_app. destruct (isRoot (Bone.parentIndex bone)) eqn:Hroot.
  - unfold drawRoot, drawBoneAxes, drawConnection.
    rewrite andb_false_r, fmap_app.
    destruct (Bone.parentIndex bone) as [p|];
      rewrite ?Hroot, ?andb_false_r; cbn [fmap list_fmap negb andb];
      rewrite !app_nil_r;
      destruct (isStandalone || drawAxes o), (drawJoints o);
      by rewrite ?drawWireSphere_sites.
  - unfold drawJoint, drawBoneAxes, drawConnection. rewrite andb_true_r.
    destruct (Bone.parentIndex bone) as [p|]; [|done].
    rewrite Hroot. cbn [negb andb].
    destruct (drawJoints o), (drawAxes o), (drawBones o); cbn [andb];
      try destruct ((0 <=? p)%Z && (p <? Z.of_nat (length bs))%Z);
      reflexivity.
Qed.

Lemma drawBone_length_le o e worldMat isStandalone bs liveBoneIds i bone :
  length (drawBone o e worldMat isStandalone bs liveBoneIds i bone) ≤ 39.
Proof.
  rewrite <- (length_fmap site), drawBone_sites. unfold boneSites.
  destruct (isRoot _), (isStandalone || drawAxes o), (drawJoints o), (drawAxes o),
    (siteGuard o isStandalone bs bone BoneLine); cbn; lia.
Qed.

(** X10. The calls of one bone come in a fixed order: for a root, the
    three triad segments (standalone instance, or [drawAxes]) and then the
    36 sphere segments ([drawJoints]); for any other bone, the joint dot
    ([drawJoints]), the three triad segments ([drawAxes]) and the
    connection segment ([drawBones], parent index within the bone array).
    One bone therefore never issues more than 39 calls. *)
Theorem bone_call_order o e worldMat isStandalone bs liveBoneIds i bone :
  site <$> drawBone o e worldMat isStandalone bs liveBoneIds i bone
  = boneSites o isStandalone bs bone ∧
  length (drawBone o e worldMat isStandalone bs liveBoneIds i bone) ≤ 39.
Proof. split; [apply drawBone_sites|apply drawBone_length_le]. Qed.

Lemma length_concat_imap_le {A B} (f : nat → A → list B) (l : list A) n :
  (∀ i x, length (f i x) ≤ n) → length (concat (imap f l)) ≤ n * length l.
Proof.
  intros Hf. revert f Hf. induction l as [|x l IH]; intros f Hf; cbn; [lia|].
  rewrite length_app. specialize (IH (f ∘ S) (λ i y, Hf (S i) y)).
  specialize (Hf 0%nat x). lia.
Qed.

(** X11. One instance never issues more than [3 + 39 * n] calls, [n]
    being the number of bones of its asset (0 when the asset or its bone
    array is missing). *)
Theorem instance_call_budget this am e assetId entityId isStandalone :
  length (drawSkeleton this am e assetId entityId isStandalone)
  ≤ 3 + 39 * length (default [] ((getAsset am assetId ≫= skeleton) ≫= bones)).
Proof.
  unfold drawSkeleton.
  destruct (getAsset am assetId) as [asset|]; cbn; [|lia].
  destruct (skeleton asset ≫= bones) as [bs|]; cbn; [|lia].
  destruct (getWorldMatrix e entityId) as [worldMat|]; cbn; [|lia].
  rewrite length_app.
  pose proof (length_concat_imap_le
                (drawBone (options this) e worldMat isStandalone bs
                   (JsMap_get (skeletonMap e) entityId)) bs 39
                (λ i x, drawBone_length_le _ _ _ _ _ _ i x)) as Hbones.
  destruct isStandalone; cbn; lia.
Qed.

(** ** Where calls come from *)

(** X12. Every call of an update belongs to one of its [drawSkeleton]
    invocations, and that invocation's asset has a bone array and its
    entity has a world matrix; the tool is then enabled and the engine has
    a debug renderer. *)
Theorem calls_need_resolved_instance this am e c :
  c ∈ updateCalls this am e →
  enabled (options this) = true ∧
  is_Some (debugRenderer e) ∧
  ∃ inv asset bs worldMat,
    inv ∈ invocations this am e ∧
    c ∈ invoke this am e inv ∧
    getAsset am (inv_assetId inv) = Some asset ∧
    skeleton asset ≫= bones = Some bs ∧
    getWorldMatrix e (inv_entityId inv) = Some worldMat.
Proof.
  intros Hc.
  assert (enabled (options this) = true ∧ is_Some (debugRenderer e)) as [Hen Hdbg].
  { unfold updateCalls in Hc. destruct (enabled (options this)); cbn in Hc;
      [|by apply elem_of_nil in Hc].
    destruct (debugRenderer e); [by eauto|by apply elem_of_nil in Hc]. }
  split; [done|]. split; [done|].
  rewrite updateCalls_invocations in Hc.
  apply list_elem_of_In, in_flat_map in Hc as (inv & Hinv & Hin).
  apply list_elem_of_In in Hinv, Hin.
  pose proof Hin as Hin'. unfold invoke, drawSkeleton in Hin'.
  destruct (getAsset am (inv_assetId inv)) as [asset|] eqn:Hasset;
    [|by apply elem_of_nil in Hin'].
  destruct (skeleton asset ≫= bones) as [bs|] eqn:Hbs;
    [|by apply elem_of_nil in Hin'].
  destruct (getWorldMatrix e (inv_entityId inv)) as [worldMat|] eqn:Hwm;
    [|by apply elem_of_nil in Hin'].
  by exists inv, asset, bs, worldMat.
Qed.
End Further.

(** * The orbit camera of the mesh editor *)

Section CameraFacts.

Lemma SFcompare_antisym s t :
  SFcompare t s = CompOpp <$> SFcompare s t.
Proof.
  destruct s as [a|a| |a m e], t as [b|b| |b n f]; cbn; try done;
    try (by destruct a); try (by destruct b); try (by destruct a, b).
  rewrite (Z.compare_antisym e f).
  destruct a, b; cbn; try done; destruct (e ?= f)%Z; cbn; try done.
  - by rewrite (Pos.compare_cont_antisym m n Eq).
  - by rewrite (Pos.compare_cont_antisym m n Eq).
Qed.

Lemma ltb_irrefl x : (x <? x)%float = false.
Proof.
  rewrite ltb_spec. unfold SFltb.
  destruct (Prim2SF x) as [a|a| |a m e] eqn:Hx; [by destruct a..|done|].
  by rewrite SFcompare_refl.
Qed.

Lemma ltb_asym x y : (x <? y)%float = true → (y <? x)%float = false.
Proof.
  rewrite !ltb_spec. unfold SFltb. rewrite (SFcompare_antisym (Prim2SF x)).
  by destruct (SFcompare (Prim2SF x) (Prim2SF y)) as [[]|].
Qed.

Lemma ltb_nan_l x y : is_nan x = true → (x <? y)%float = false.
Proof. rewrite is_nan_spec, ltb_spec. by intros ->. Qed.

Lemma ltb_nan_r x y : is_nan y = true → (x <? y)%float = false.
Proof. rewrite is_nan_spec, ltb_spec. intros ->. by destruct (Prim2SF x). Qed.

(** [Math.max(a, b)] is never below [a]. *)
Lemma Math_max_lower a b : (Math_max a b <? a)%float = false.
Proof.
  unfold Math_max. destruct (is_nan a || is_nan b) eqn:Hnan.
  - by apply ltb_nan_l.
  - destruct (a <? b)%float eqn:Hab; [by apply ltb_asym|].
    destruct (b <? a)%float eqn:Hba; [apply ltb_irrefl|].
    destruct (get_sign a); [done|apply ltb_irrefl].
Qed.

(** [Math.min(a, b)] is never above [a]. *)
Lemma Math_min_upper a b : (a <? Math_min a b)%float = false.
Proof.
  unfold Math_min. destruct (is_nan a || is_nan b) eqn:Hnan.
  - by apply ltb_nan_r.
  - destruct (a <? b)%float eqn:Hab; [apply ltb_irrefl|].
    destruct (b <? a)%float eqn:Hba; [done|].
    destruct (get_sign a); [apply ltb_irrefl|done].
Qed.

(** [Math.max(a, b)] is not above a bound of both. *)
Lemma Math_max_upper c a b :
  (c <? a)%float = false → (c <? b)%float = false →
  (c <? Math_max a b)%float = false.
Proof.
  intros Ha Hb. unfold Math_max. destruct (is_nan a || is_nan b).
  - by apply ltb_nan_r.
  - destruct (a <? b)%float; [done|]. destruct (b <? a)%float; [done|].
    by destruct (get_sign a).
Qed.

(** X13. An orbit drag leaves [phi] within [0.1, PI - 0.1], whatever the
    mouse position and the starting camera are (a NaN stays a NaN and is
    neither below nor above), sets [theta] from the starting camera, and
    keeps the radius and the target of the current camera. *)
Theorem orbit_clamps_phi panTarget sx sy start e p :
  (Camera.phi (handleMouseMove panTarget (Some (mkDragState ORBIT sx sy start)) e p)
     <? 0.1)%float = false ∧
  (Math_PI - 0.1
     <? Camera.phi (handleMouseMove panTarget (Some (mkDragState ORBIT sx sy start)) e p))%float
    = false ∧
  Camera.theta (handleMouseMove panTarget (Some (mkDragState ORBIT sx sy start)) e p)
    = (Camera.theta start + (clientX e - sx) * 0.01)%float ∧
  Camera.radius (handleMouseMove panTarget (Some (mkDragState ORBIT sx sy start)) e p)
    = Camera.radius p ∧
  Camera.target (handleMouseMove panTarget (Some (mkDragState ORBIT sx sy start)) e p)
    = Camera.target p.
Proof.
  cbn. repeat split.
  - apply Math_max_lower.
  - apply Math_max_upper; [by vm_compute|apply Math_min_upper].
Qed.

(** X14. Neither a zoom drag nor a wheel event ever brings the camera
    radius below 0.1, whatever the mouse deltas are; both leave the
    angles and the target of the current camera alone. *)
Theorem zoom_keeps_distance panTarget sx sy start e deltaY p :
  (Camera.radius (handleMouseMove panTarget (Some (mkDragState ZOOM sx sy start)) e p)
     <? 0.1)%float = false ∧
  (Camera.radius (onWheel deltaY p) <? 0.1)%float = false ∧
  Camera.theta (handleMouseMove panTarget (Some (mkDragState ZOOM sx sy start)) e p)
    = Camera.theta p ∧
  Camera.phi (handleMouseMove panTarget (Some (mkDragState ZOOM sx sy start)) e p)
    = Camera.phi p ∧
  Camera.target (handleMouseMove panTarget (Some (mkDragState ZOOM sx sy start)) e p)
    = Camera.target p ∧
  Camera.theta (onWheel deltaY p) = Camera.theta p ∧
  Camera.phi (onWheel deltaY p) = Camera.phi p ∧
  Camera.target (onWheel deltaY p) = Camera.target p.
Proof. cbn. repeat split; apply Math_max_lower. Qed.

(** X15. The Alt key plays no part in choosing the drag mode: the middle
    button pans, the right button zooms and every other button orbits.
    The drag state records the mouse position and the camera as they are
    at that moment. *)
Theorem mouse_down_mode e camera :
  handleMouseDown e camera
  = {| mode := if (button e =? 1)%Z then PAN
               else if (button e =? 2)%Z then ZOOM else ORBIT;
       startX := clientX e; startY := clientY e; startCamera := camera |}.
Proof.
  unfold handleMouseDown. f_equal.
  destruct (altKey e), (button e =? 0)%Z eqn:H0, (button e =? 1)%Z eqn:H1,
    (button e =? 2)%Z eqn:H2; try reflexivity; lia.
Qed.

(** X16. A camera within range stays within range under every mouse
    move (orbit, zoom or pan drag, or no drag at all) and every wheel
    event; the initial camera is within range. *)
Theorem camera_stays_in_range panTarget dragState e deltaY p :
  cameraInRange p →
  cameraInRange (handleMouseMove panTarget dragState e p) ∧
  cameraInRange (onWheel deltaY p).
Proof.
  intros (Hr & Hlo & Hhi). split.
  - destruct dragState as [[[] sx sy start]|]; cbn; unfold cameraInRange; cbn;
      repeat split; try done.
    + apply Math_max_lower.
    + apply Math_max_upper; [by vm_compute|apply Math_min_upper].
    + apply Math_max_lower.
  - unfold cameraInRange, onWheel. cbn. repeat split; try done.
    apply Math_max_lower.
Qed.
End CameraFacts.

(** * Folder navigation of the project panel *)

Section Navigation.

Lemma split_slash_app_noSlash p rest :
  noSlash p = true →
  split_slash (p +:+ String "/" rest) = p :: split_slash rest.
Proof.
  induction p as [|c p IH]; simpl; [done|].
  intros [Hc Hp]%andb_prop. apply negb_true_iff in Hc. rewrite Hc.
  by rewrite (IH Hp).
Qed.

Lemma split_slash_noSlash p : noSlash p = true → split_slash p = [p].
Proof.
  induction p as [|c p IH]; cbn [split_slash noSlash]; [done|].
  intros [Hc Hp]%andb_prop. apply negb_true_iff in Hc. rewrite Hc.
  by rewrite (IH Hp).
Qed.

Lemma split_join p ps :
  Forall (λ s, noSlash s = true) (p :: ps) →
  split_slash (join_slash (p :: ps)) = p :: ps.
Proof.
  revert p. induction ps as [|q ps IH]; intros p Hall.
  - cbn. apply split_slash_noSlash. by inversion Hall.
  - inversion Hall as [|? ? Hp Hrest]; subst.
    change (join_slash (p :: q :: ps)) with (p +:+ String "/" (join_slash (q :: ps))).
    rewrite split_slash_app_noSlash by done. by rewrite IH.
Qed.

Lemma split_slash_parts s : Forall (λ p, noSlash p = true) (split_slash s).
Proof.
  induction s as [|c s IH]; simpl; [by repeat constructor|].
  destruct (Ascii.eqb c "/") eqn:Hc; [by constructor|].
  destruct (split_slash s) as [|x r]; [repeat constructor; simpl; by rewrite Hc|].
  inversion IH; subst. constructor; [|done]. simpl. by rewrite Hc.
Qed.

Lemma pathParts_segments s : Forall segment (pathParts s).
Proof.
  unfold pathParts. apply Forall_forall. intros p [Hne Hin]%list_elem_of_filter.
  split; [|done]. by eapply Forall_forall in Hin; [|apply split_slash_parts].
Qed.

Lemma split_pathOf ps :
  Forall segment ps → split_slash (pathOf ps) = "" :: match ps with [] => [""] | _ => ps end.
Proof.
  intros Hps. unfold pathOf. simpl. f_equal. destruct ps as [|p ps]; [done|].
  apply split_join. eapply Forall_impl; [done|]. by intros ? [].
Qed.

Lemma pathParts_pathOf ps : Forall segment ps → pathParts (pathOf ps) = ps.
Proof.
  intros Hps. unfold pathParts. rewrite split_pathOf by done.
  rewrite filter_cons. simpl. destruct ps as [|p ps]; [done|].
  induction Hps as [|q qs [_ Hq] _ IH]; [done|].
  rewrite filter_cons, decide_True by done. by rewrite IH.
Qed.

Lemma append_assoc (a b c : string) : (a +:+ b) +:+ c = a +:+ b +:+ c.
Proof.
  induction a as [|x a IH]; [done|].
  change (String x ((a +:+ b) +:+ c) = String x (a +:+ b +:+ c)). by rewrite IH.
Qed.

Lemma join_slash_snoc l name :
  l ≠ [] → join_slash (l ++ [name]) = join_slash l +:+ "/" +:+ name.
Proof.
  induction l as [|p l IH]; [done|]. intros _.
  destruct l as [|q l]; [done|].
  change (join_slash ((p :: q :: l) ++ [name]))
    with (p +:+ "/" +:+ join_slash ((q :: l) ++ [name])).
  rewrite IH by done.
  change (join_slash (p :: q :: l)) with (p +:+ "/" +:+ join_slash (q :: l)).
  by rewrite !append_assoc.
Qed.

Lemma openFolder_path name ps st :
  Forall segment ps → currentPath st = pathOf ps →
  currentPath (handleOpenFolder name st) = pathOf (ps ++ [name]).
Proof.
  intros Hps Hst. unfold handleOpenFolder, handleNavigate. cbn [currentPath].
  rewrite Hst. destruct ps as [|p ps]; [done|].
  assert (String.eqb (pathOf (p :: ps)) "/" = false) as ->.
  { inversion Hps as [|? ? [_ Hp] _]; subst. destruct p; [done|].
    unfold pathOf. by destruct ps. }
  unfold pathOf. rewrite join_slash_snoc by done.
  by rewrite !append_assoc.
Qed.

(** X17. A breadcrumb click cuts the current path after folder
    [index + 1]: the new path is a slash followed by the first
    [index + 1] folder names of the current path joined by slashes (empty
    pieces of the current path are dropped), its folder names are exactly
    those, the selection is cleared, clicking the same crumb again
    changes nothing, and on a path in normal form the last crumb (or any
    later index) leaves the path as it is. *)
Theorem breadcrumb_parts index st :
  currentPath (handleBreadcrumb index st)
    = pathOf (take (S index) (pathParts (currentPath st))) ∧
  pathParts (currentPath (handleBreadcrumb index st))
    = take (S index) (pathParts (currentPath st)) ∧
  selectedAssetIds (handleBreadcrumb index st) = [] ∧
  handleBreadcrumb index (handleBreadcrumb index st) = handleBreadcrumb index st ∧
  (∀ ps, Forall segment ps → currentPath st = pathOf ps → length ps ≤ S index →
         currentPath (handleBreadcrumb index st) = currentPath st).
Proof.
  assert (∀ st', currentPath (handleBreadcrumb index st')
                 = pathOf (take (S index) (pathParts (currentPath st')))) as Hpath.
  { intros st'. unfold handleBreadcrumb, handleNavigate. cbn [currentPath].
    by rewrite Nat.add_1_r. }
  assert (∀ st', pathParts (currentPath (handleBreadcrumb index st'))
                 = take (S index) (pathParts (currentPath st'))) as Hparts.
  { intros st'. rewrite Hpath. apply pathParts_pathOf, Forall_take, pathParts_segments. }
  split; [apply Hpath|]. split; [apply Hparts|]. split; [done|]. split.
  - unfold handleBreadcrumb at 1 3, handleNavigate. f_equal.
    by rewrite Hparts, Nat.add_1_r, take_take, Nat.min_id.
  - intros ps Hps Hst Hlen. rewrite Hpath, Hst, pathParts_pathOf by done.
    by rewrite take_ge.
Qed.

(** X18. From a path in normal form, opening a folder and then going up
    returns to the path one started from, for any folder name without a
    slash.  If the name is not empty, the path after opening has the old
    folder names followed by the new one, its own last crumb leaves it
    alone, and the crumb before it leads back to the starting path. *)
Theorem open_folder_round_trip name ps st :
  Forall segment ps → currentPath st = pathOf ps → noSlash name = true →
  currentPath (handleUp (handleOpenFolder name st)) = currentPath st ∧
  (nonEmpty name = true →
   pathParts (currentPath (handleOpenFolder name st)) = ps ++ [name] ∧
   currentPath (handleBreadcrumb (length ps) (handleOpenFolder name st))
     = currentPath (handleOpenFolder name st) ∧
   (ps ≠ [] →
    currentPath (handleBreadcrumb (length ps - 1) (handleOpenFolder name st))
      = currentPath st)).
Proof.
  intros Hps Hst Hname.
  pose proof (openFolder_path name ps st Hps Hst) as Hopen.
  split.
  - unfold handleUp, handleNavigate. cbn [currentPath]. rewrite Hopen, Hst.
    unfold pathOf at 1.
    change (split_slash ("/" +:+ join_slash (ps ++ [name])))
      with ("" :: split_slash (join_slash (ps ++ [name]))).
    assert (split_slash (join_slash (ps ++ [name])) = ps ++ [name]) as ->.
    { destruct ps as [|p ps]; [by apply split_slash_noSlash|].
      apply split_join. rewrite app_comm_cons. apply Forall_app. split.
      - eapply Forall_impl; [done|]. by intros ? [].
      - by repeat constructor. }
    rewrite (app_comm_cons ps [name] ""), removelast_last.
    destruct ps as [|p ps]; [done|].
    change (join_slash ("" :: p :: ps)) with (pathOf (p :: ps)).
    unfold orSlash. done.
  - intros Hne.
    assert (Forall segment (ps ++ [name])) as Hall.
    { apply Forall_app. split; [done|]. by repeat constructor. }
    assert (pathParts (currentPath (handleOpenFolder name st)) = ps ++ [name]) as Hparts.
    { rewrite Hopen. by apply pathParts_pathOf. }
    split; [done|]. split.
    + unfold handleBreadcrumb, handleNavigate. cbn [currentPath].
      rewrite Hparts, take_ge, Hopen; [done|]. rewrite length_app. cbn. lia.
    + intros Hnil. unfold handleBreadcrumb, handleNavigate. cbn [currentPath].
      rewrite Hparts, Hst. replace (length ps - 1 + 1) with (length ps)
        by (destruct ps; [done|cbn; lia]).
      by rewrite take_app_length.
Qed.
End Navigation.

(** * The further properties on examples *)

Section FurtherWitnesses.
Import Example.

Lemma connection_joins_joints_witness :
  filter (λ c, site c = BoneLine)
         (drawBone (options tool) engine (translation 10 0 0) true
            [hip; spine; head; stray] (JsMap_get (skeletonMap engine) "S") 1 spine)
  = [mkCall BoneLine
       (drawLine (Vec3.mk 10 5 0) (Vec3.mk 10 2 0) (Color.mk 0.5 0.5 0.5))].
Proof.
  rewrite (connection_joins_joints (options tool) engine (translation 10 0 0) true
             [hip; spine; head; stray] (JsMap_get (skeletonMap engine) "S") 1 spine
             0 hip).
  - vm_compute. reflexivity.
  - reflexivity.
  - reflexivity.
  - cbn. lia.
  - reflexivity.
Defined.


Lemma update_noop_witness :
  update (setOptions (mkPartial (Some false) None None None None None None None None) tool)
         am engine
  = (setOptions (mkPartial (Some false) None None None None None None None None) tool,
     engine).
Proof. apply update_noop. left. reflexivity. Defined.

Lemma skeletal_mesh_gate_witness :
  ("M" ∉ (skeletonEntityAssetMap engine).*1) ∧
  ∃ idx meshIntId assetId,
    idToIndex (ecs engine) !! "M" = Some idx ∧
    isActive (store (ecs engine)) !! idx = Some true ∧
    meshType (store (ecs engine)) !! idx = Some meshIntId ∧
    meshIntToUuid am !! meshIntId = Some assetId ∧
    assetId ≠ "" ∧
    drawSkeletalMesh tool am engine ("M", [Some "M.hip"])
    = drawSkeleton tool am engine assetId "M" false.
Proof.
  apply (skeletal_mesh_gate tool am engine "M" [Some "M.hip"]).
  intros Hnil. apply (f_equal length) in Hnil. vm_compute in Hnil. discriminate.
Defined.

Lemma calls_need_resolved_instance_witness :
  enabled (options tool) = true ∧
  is_Some (debugRenderer engine) ∧
  ∃ inv asset bs worldMat,
    inv ∈ invocations tool am engine ∧
    mkCall OriginAxis (drawLine (Vec3.mk 10 0 0) (Vec3.mk 10.6 0 0) red)
      ∈ invoke tool am engine inv ∧
    getAsset am (inv_assetId inv) = Some asset ∧
    skeleton asset ≫= bones = Some bs ∧
    getWorldMatrix engine (inv_entityId inv) = Some worldMat.
Proof.
  apply (calls_need_resolved_instance tool am engine).
  apply (list_elem_of_lookup_2 _ 0%nat). vm_compute. reflexivity.
Defined.

Lemma camera_stays_in_range_witness :
  cameraInRange
    (handleMouseMove (λ start _ _, Camera.target start)
       (Some (handleMouseDown (mkMouseEvent false 0 100 100) initialCamera))
       (mkMouseEvent false 0 160 900) initialCamera) ∧
  cameraInRange (onWheel (-1000) initialCamera).
Proof.
  apply camera_stays_in_range. repeat split; vm_compute; reflexivity.
Defined.

(** Dragging far down clamps [phi] at the lower bound, and scrolling far
    in stops the radius at 0.1. *)
Example camera_clamped :
  Camera.phi
    (handleMouseMove (λ start _ _, Camera.target start)
       (Some (handleMouseDown (mkMouseEvent false 0 100 100) initialCamera))
       (mkMouseEvent false 0 160 900) initialCamera) = 0.1%float ∧
  Camera.radius (onWheel (-1000) initialCamera) = 0.1%float.
Proof. split; vm_compute; reflexivity. Qed.

Lemma open_folder_round_trip_witness :
  currentPath (handleUp (handleOpenFolder "Meshes" (mkPanelState "/Content" ["a1"])))
  = "/Content" ∧
  (nonEmpty "Meshes" = true →
   pathParts (currentPath (handleOpenFolder "Meshes" (mkPanelState "/Content" ["a1"])))
   = ["Content"] ++ ["Meshes"] ∧
   currentPath (handleBreadcrumb (length ["Content"])
                  (handleOpenFolder "Meshes" (mkPanelState "/Content" ["a1"])))
   = currentPath (handleOpenFolder "Meshes" (mkPanelState "/Content" ["a1"])) ∧
   (["Content"] ≠ [] →
    currentPath (handleBreadcrumb (length ["Content"] - 1)
                   (handleOpenFolder "Meshes" (mkPanelState "/Content" ["a1"])))
    = "/Content")).
Proof.
  apply (open_folder_round_trip "Meshes" ["Content"] (mkPanelState "/Content" ["a1"])).
  - repeat constructor.
  - reflexivity.
  - reflexivity.
Defined.

(** A breadcrumb click also tidies a path with empty pieces. *)
Example breadcrumb_tidies :
  currentPath (handleBreadcrumb 1 (mkPanelState "/Content//Meshes/Props/" []))
  = "/Content/Meshes".
Proof. vm_compute. reflexivity. Qed.
End FurtherWitnesses.
